(** * caster: a shallow embedding of src/lib.rs

    The Rust crate computes 2D ray/shape intersections in [f32]
    arithmetic.  Every numeric value of the source is an IEEE 754
    binary32 number; we model it on top of the Standard Library's
    executable specification of binary floating point
    ([SpecFloat], parameterised by precision 24 and maximal exponent
    128), with round-to-nearest-even for every operation, exactly as
    the hardware does it.

    [SpecFloat] has a single NaN.  The source, however, inspects the
    sign bit of a NaN ([f32::is_sign_negative]), so NaNs carry a sign
    here.  An operation with a NaN operand returns that NaN (the first
    one if both are NaN), which is what x86-64 SSE and AArch64 do; a
    NaN created by an invalid operation ([0 * inf], [0 / 0],
    [inf - inf], ...) has a platform-dependent sign, the parameter
    [dnan] below ([true] on x86-64, [false] on AArch64 and RISC-V).

    [f32::cos] and [f32::sin] come from the platform's libm; they are
    parameters as well.  Claims that need their value at some angle say
    so in a hypothesis. *)

From Stdlib Require Import ZArith List Bool Lia Permutation.
From Stdlib Require Import SpecFloat.
From Stdlib Require Import Reals Lra.
Import ListNotations.

Open Scope Z_scope.

(** ** Binary32 numbers *)

Definition prec : Z := 24.
Definition emax : Z := 128.

(** A binary32 value: a non-NaN [spec_float] or a NaN with its sign
    bit.  [Num S754_nan] is never built by the operations below. *)
Inductive f32 : Type :=
| Num (v : spec_float)
| NaN (s : bool).

(** Literal [m * 2^e], rounded to binary32 (exact for the literals we
    use). *)
Definition lit (m e : Z) : f32 := Num (binary_normalize prec emax m e false).

Definition zero : f32 := Num (S754_zero false).
Definition one : f32 := lit 1 0.
Definition two : f32 := lit 2 0.

(** [n as f32] for an unsigned integer [n]. *)
Definition of_nat (n : nat) : f32 := lit (Z.of_nat n) 0.

Definition is_nan (a : f32) : bool :=
  match a with NaN _ => true | Num _ => false end.

Definition is_finite (a : f32) : bool :=
  match a with
  | Num (S754_zero _) | Num (S754_finite _ _ _) => true
  | _ => false
  end.

(** [f32::is_sign_negative]: the sign bit, NaNs included. *)
Definition is_sign_negative (a : f32) : bool :=
  match a with
  | NaN s => s
  | Num (S754_zero s) | Num (S754_infinity s) | Num (S754_finite s _ _) => s
  | Num S754_nan => false
  end.

(** Comparisons: IEEE, false as soon as a NaN is involved. *)
Definition fcmp (a b : f32) : option comparison :=
  match a, b with
  | Num x, Num y => SFcompare x y
  | _, _ => None
  end.

Definition flt (a b : f32) : bool :=
  match fcmp a b with Some Lt => true | _ => false end.
Definition fle (a b : f32) : bool :=
  match fcmp a b with Some (Lt | Eq) => true | _ => false end.
(** Rust [a > b]. *)
Definition fgt (a b : f32) : bool := flt b a.
(** Rust [a == b]. *)
Definition feq (a b : f32) : bool :=
  match fcmp a b with Some Eq => true | _ => false end.

(** [f32::min] and [f32::max]: a NaN argument is ignored. *)
Definition fmin (a b : f32) : f32 :=
  match a, b with
  | NaN _, _ => b
  | _, NaN _ => a
  | _, _ => if flt b a then b else a
  end.
Definition fmax (a b : f32) : f32 :=
  match a, b with
  | NaN _, _ => b
  | _, NaN _ => a
  | _, _ => if flt a b then b else a
  end.

Section Arith.

(** Sign of the NaN produced by an invalid operation. *)
Variable dnan : bool.

Definition of_sf (x : spec_float) : f32 :=
  match x with S754_nan => NaN dnan | _ => Num x end.

Definition binop (op : spec_float -> spec_float -> spec_float) (a b : f32) : f32 :=
  match a, b with
  | NaN s, _ => NaN s
  | Num _, NaN s => NaN s
  | Num x, Num y => of_sf (op x y)
  end.

Definition fadd : f32 -> f32 -> f32 := binop (SFadd prec emax).
Definition fsub : f32 -> f32 -> f32 := binop (SFsub prec emax).
Definition fmul : f32 -> f32 -> f32 := binop (SFmul prec emax).
Definition fdiv : f32 -> f32 -> f32 := binop (SFdiv prec emax).

Definition fsqrt (a : f32) : f32 :=
  match a with
  | NaN s => NaN s
  | Num x => of_sf (SFsqrt prec emax x)
  end.

(** [x.powi(2)]: compiled to [x * x]. *)
Definition powi2 (a : f32) : f32 := fmul a a.

End Arith.

(** ** Data model *)

(** [struct Intersection { x, y, len }]. *)
Record Intersection : Type := mkIntersection { x : f32; y : f32; len : f32 }.

(** [struct Ray { x, y, angle, intersection }]. *)
Module Ray.
Record t : Type := mk { x : f32; y : f32; angle : f32; intersection : option Intersection }.
End Ray.

(** [PyErr]: the functions below never build one, but their results
    are [PyResult]s and the callers propagate errors. *)
Inductive PyErr : Type := PyErr_new.

Inductive PyResult (A : Type) : Type :=
| Ok (v : A)
| Err (e : PyErr).
Arguments Ok {A} v.
Arguments Err {A} e.

(** A segment [(line_x1, line_y1, line_x2, line_y2)] and a circle
    [(circle_x, circle_y, circle_radius)], as the Python caller passes
    them. *)
Definition Line : Type := (f32 * f32 * f32 * f32)%type.
Definition Circle : Type := (f32 * f32 * f32)%type.

(** ** The program *)

Section Caster.

Variable dnan : bool.
(** [f32::cos] and [f32::sin] of the platform. *)
Variables f32_cos f32_sin : f32 -> f32.

Local Infix "+." := (fadd dnan) (at level 50, left associativity).
Local Infix "-." := (fsub dnan) (at level 50, left associativity).
Local Infix "*." := (fmul dnan) (at level 40, left associativity).
Local Infix "/." := (fdiv dnan) (at level 40, left associativity).

(** [fn vector_len]. *)
Definition vector_len (x1 y1 x2 y2 : f32) : f32 :=
  fsqrt dnan (powi2 dnan (x1 -. x2) +. powi2 dnan (y1 -. y2)).

(** [fn vectors_cos]. *)
Definition vectors_cos (x y x1 y1 x2 y2 len1 len2 : f32) : f32 :=
  ((x -. x1) *. (x -. x2) +. (y -. y1) *. (y -. y2)) /. (len1 *. len2).

(** [fn choose_closest]. *)
Definition choose_closest (first second : option Intersection) : option Intersection :=
  match first with
  | Some first_intersection =>
      match second with
      | Some second_intersection =>
          if fgt (len first_intersection) (len second_intersection) then second else first
      | None => first
      end
  | None => second
  end.

(** [fn intersection_line]. *)
Definition intersection_line
    (ray_begin_x ray_begin_y ray_len ray_angle line_x1 line_y1 line_x2 line_y2 : f32)
    : PyResult (option Intersection) :=
  let ray_end_x := f32_cos ray_angle *. ray_len +. ray_begin_x in
  let ray_end_y := f32_sin ray_angle *. ray_len +. ray_begin_y in
  let ray_x_diff := ray_end_x -. ray_begin_x in
  let ray_tg := (ray_end_y -. ray_begin_y) /. ray_x_diff in
  let ray_b := ray_begin_y -. ray_tg *. ray_begin_x in
  let line_x_diff := line_x2 -. line_x1 in
  let line_tg := (line_y2 -. line_y1) /. line_x_diff in
  let tg_diff := line_tg -. ray_tg in
  if feq tg_diff zero then Ok None else
  let line_b := line_y1 -. line_tg *. line_x1 in
  let y := (ray_b *. line_tg -. line_b *. ray_tg) /. tg_diff in
  let x := (y -. ray_b) /. ray_tg in
  if fgt (fmin line_x1 line_x2) x || fgt x (fmax line_x1 line_x2)
     || fgt (fmin line_y1 line_y2) y || fgt y (fmax line_y1 line_y2)
  then Ok None else
  let len := vector_len ray_begin_x ray_begin_y x y in
  if fgt len ray_len then Ok None else
  let cos := vectors_cos ray_begin_x ray_begin_y ray_end_x ray_end_y x y len ray_len in
  if is_sign_negative cos then Ok None else
  Ok (Some (mkIntersection x y len)).

(** The candidate point of [fn intersection_line]: [(x, y, len)] once
    the parallelism, bounding-box and length tests have passed, the
    point the cosine test then accepts or rejects; [None] when one of
    those earlier tests returns [Ok(None)]. *)
Definition line_candidate
    (ray_begin_x ray_begin_y ray_len ray_angle line_x1 line_y1 line_x2 line_y2 : f32)
    : option (f32 * f32 * f32) :=
  let ray_end_x := f32_cos ray_angle *. ray_len +. ray_begin_x in
  let ray_end_y := f32_sin ray_angle *. ray_len +. ray_begin_y in
  let ray_x_diff := ray_end_x -. ray_begin_x in
  let ray_tg := (ray_end_y -. ray_begin_y) /. ray_x_diff in
  let ray_b := ray_begin_y -. ray_tg *. ray_begin_x in
  let line_x_diff := line_x2 -. line_x1 in
  let line_tg := (line_y2 -. line_y1) /. line_x_diff in
  let tg_diff := line_tg -. ray_tg in
  if feq tg_diff zero then None else
  let line_b := line_y1 -. line_tg *. line_x1 in
  let y := (ray_b *. line_tg -. line_b *. ray_tg) /. tg_diff in
  let x := (y -. ray_b) /. ray_tg in
  if fgt (fmin line_x1 line_x2) x || fgt x (fmax line_x1 line_x2)
     || fgt (fmin line_y1 line_y2) y || fgt y (fmax line_y1 line_y2)
  then None else
  let len := vector_len ray_begin_x ray_begin_y x y in
  if fgt len ray_len then None else
  Some (x, y, len).

(** [fn intersection_lines]: the loop over [lines]. *)
Fixpoint intersection_lines_loop (ray_begin_x ray_begin_y ray_len ray_angle : f32)
    (closest : option Intersection) (lines : list Line) : PyResult (option Intersection) :=
  match lines with
  | [] => Ok closest
  | (line_x1, line_y1, line_x2, line_y2) :: rest =>
      match intersection_line ray_begin_x ray_begin_y ray_len ray_angle
              line_x1 line_y1 line_x2 line_y2 with
      | Ok intersect =>
          intersection_lines_loop ray_begin_x ray_begin_y ray_len ray_angle
            (choose_closest closest intersect) rest
      | Err e => Err e
      end
  end.

Definition intersection_lines (ray_begin_x ray_begin_y ray_len ray_angle : f32)
    (lines : list Line) : PyResult (option Intersection) :=
  intersection_lines_loop ray_begin_x ray_begin_y ray_len ray_angle None lines.

(** The distance from the current point to the circle's surface, as
    [fn intersection_circle] computes its [len_to_circle]. *)
Definition len_to_circle_at (ray_begin_x ray_begin_y circle_x circle_y circle_radius : f32) : f32 :=
  let len_to_center := vector_len ray_begin_x ray_begin_y circle_x circle_y in
  if flt len_to_center circle_radius then circle_radius -. len_to_center
  else len_to_center -. circle_radius.

(** [fn intersection_circle].  The Rust function recurses without
    bound; [fuel] bounds the number of calls, and [None] means that
    the recursion has not returned after [fuel] calls. *)
Fixpoint intersection_circle (fuel : nat)
    (ray_begin_x ray_begin_y ray_len ray_angle circle_x circle_y circle_radius accuracy len : f32)
    : option (PyResult (option Intersection)) :=
  match fuel with
  | O => None
  | S fuel' =>
      if fgt len ray_len then Some (Ok None) else
      let len_to_circle := len_to_circle_at ray_begin_x ray_begin_y circle_x circle_y circle_radius in
      if fle len_to_circle accuracy
      then Some (Ok (Some (mkIntersection ray_begin_x ray_begin_y len))) else
      let next_x := f32_cos ray_angle *. len_to_circle +. ray_begin_x in
      let next_y := f32_sin ray_angle *. len_to_circle +. ray_begin_y in
      intersection_circle fuel' next_x next_y ray_len ray_angle circle_x circle_y circle_radius
        accuracy (len +. len_to_circle)
  end.

(** [fn intersection_circles]: the loop over [circles], each refined
    from [len = 0f32]. *)
Fixpoint intersection_circles_loop (fuel : nat) (ray_begin_x ray_begin_y ray_len ray_angle accuracy : f32)
    (closest : option Intersection) (circles : list Circle) : option (PyResult (option Intersection)) :=
  match circles with
  | [] => Some (Ok closest)
  | (circle_x, circle_y, circle_radius) :: rest =>
      match intersection_circle fuel ray_begin_x ray_begin_y ray_len ray_angle
              circle_x circle_y circle_radius accuracy zero with
      | None => None
      | Some (Ok intersect) =>
          intersection_circles_loop fuel ray_begin_x ray_begin_y ray_len ray_angle accuracy
            (choose_closest closest intersect) rest
      | Some (Err e) => Some (Err e)
      end
  end.

Definition intersection_circles (fuel : nat) (ray_begin_x ray_begin_y ray_len ray_angle : f32)
    (circles : list Circle) (accuracy : f32) : option (PyResult (option Intersection)) :=
  intersection_circles_loop fuel ray_begin_x ray_begin_y ray_len ray_angle accuracy None circles.

(** [fn intersection]. *)
Definition intersection (fuel : nat) (ray_begin_x ray_begin_y ray_len ray_angle : f32)
    (lines : list Line) (circles : list Circle) (circles_accuracy : f32)
    : option (PyResult (option Intersection)) :=
  match intersection_lines ray_begin_x ray_begin_y ray_len ray_angle lines with
  | Err e => Some (Err e)
  | Ok intersect_lines =>
      match intersection_circles fuel ray_begin_x ray_begin_y ray_len ray_angle circles
              circles_accuracy with
      | None => None
      | Some (Err e) => Some (Err e)
      | Some (Ok intersect_circles) => Some (Ok (choose_closest intersect_lines intersect_circles))
      end
  end.

(** The angle of ray [i] of [fn rays]:
    [i as f32 / rays_count as f32 * fov + angle_offset]. *)
Definition ray_angle_of (rays_count : nat) (fov angle_offset : f32) (i : nat) : f32 :=
  of_nat i /. of_nat rays_count *. fov +. angle_offset.

(** The loop [for i in 0..rays_count] of [fn rays], over the list of
    indices still to do. *)
Fixpoint rays_loop (fuel : nat) (rays_count : nat) (fov angle_offset : f32)
    (ray_begin_x ray_begin_y ray_len : f32) (lines : list Line) (circles : list Circle)
    (circles_accuracy : f32) (indices : list nat) : option (PyResult (list Ray.t)) :=
  match indices with
  | [] => Some (Ok [])
  | i :: rest =>
      let angle := ray_angle_of rays_count fov angle_offset i in
      match intersection fuel ray_begin_x ray_begin_y ray_len angle lines circles circles_accuracy with
      | None => None
      | Some (Err e) => Some (Err e)
      | Some (Ok intersection) =>
          match rays_loop fuel rays_count fov angle_offset ray_begin_x ray_begin_y ray_len
                  lines circles circles_accuracy rest with
          | None => None
          | Some (Err e) => Some (Err e)
          | Some (Ok rays) => Some (Ok (Ray.mk ray_begin_x ray_begin_y angle intersection :: rays))
          end
      end
  end.

(** [fn rays]. *)
Definition rays (fuel : nat) (view_angle fov : f32) (rays_count : nat)
    (ray_begin_x ray_begin_y ray_len : f32) (lines : list Line) (circles : list Circle)
    (circles_accuracy : f32) : option (PyResult (list Ray.t)) :=
  let angle_offset := view_angle -. fov /. two in
  rays_loop fuel rays_count fov angle_offset ray_begin_x ray_begin_y ray_len lines circles
    circles_accuracy (seq 0 rays_count).

End Caster.

(** ** Libm stand-in for concrete runs

    The correctly rounded binary32 values of [cos] and [sin] at the
    two angles the concrete runs below use, [0] and [2]: [cos 0 = 1],
    [sin 0 = 0], [cos 2 = -13963571 * 2^-25] and
    [sin 2 = 15255479 * 2^-24], which every libm with an error below
    half an ulp returns.  Other angles are not used. *)
Definition cos_ref (a : f32) : f32 :=
  if feq a zero then one else if feq a two then lit (-13963571) (-25) else NaN false.
Definition sin_ref (a : f32) : f32 :=
  if feq a zero then zero else if feq a two then lit 15255479 (-24) else NaN false.

(** ** Ordering of binary32 numbers *)

(** [SFcompare] on non-NaN values is the lexicographic order of this
    key: class (-inf, negative, zero, positive, +inf), then exponent,
    then mantissa, negated for negative numbers. *)
Definition key (v : spec_float) : Z * Z * Z :=
  match v with
  | S754_infinity true => (0, 0, 0)
  | S754_finite true m e => (1, - e, - Zpos m)
  | S754_zero _ | S754_nan => (2, 0, 0)
  | S754_finite false m e => (3, e, Zpos m)
  | S754_infinity false => (4, 0, 0)
  end.

Definition lex (a b : Z * Z * Z) : comparison :=
  let '(a1, a2, a3) := a in
  let '(b1, b2, b3) := b in
  match Z.compare a1 b1 with
  | Eq => match Z.compare a2 b2 with Eq => Z.compare a3 b3 | c => c end
  | c => c
  end.

Definition lexlt (a b : Z * Z * Z) : Prop :=
  let '(a1, a2, a3) := a in
  let '(b1, b2, b3) := b in
  a1 < b1 \/ (a1 = b1 /\ (a2 < b2 \/ (a2 = b2 /\ a3 < b3))).

(** A number: not a NaN. *)
Definition is_num (a : f32) : bool :=
  match a with Num S754_nan | NaN _ => false | Num _ => true end.

Definition fkey (a : f32) : Z * Z * Z :=
  match a with Num v => key v | NaN _ => (2, 0, 0) end.

(** ** The loops as folds

    The value of one segment and of one circle, as [intersection_lines]
    and [intersection_circles] pass them to [choose_closest]. *)
Section Views.

Variable dnan : bool.
Variables f32_cos f32_sin : f32 -> f32.

Definition line_hit (ray_begin_x ray_begin_y ray_len ray_angle : f32) (l : Line)
    : option Intersection :=
  let '(line_x1, line_y1, line_x2, line_y2) := l in
  match intersection_line dnan f32_cos f32_sin ray_begin_x ray_begin_y ray_len ray_angle
          line_x1 line_y1 line_x2 line_y2 with
  | Ok r => r
  | Err _ => None
  end.

Definition circle_hit (fuel : nat) (ray_begin_x ray_begin_y ray_len ray_angle accuracy : f32)
    (c : Circle) : option (option Intersection) :=
  let '(circle_x, circle_y, circle_radius) := c in
  match intersection_circle dnan f32_cos f32_sin fuel ray_begin_x ray_begin_y ray_len ray_angle
          circle_x circle_y circle_radius accuracy zero with
  | Some (Ok r) => Some r
  | _ => None
  end.

End Views.

(** All the values of a list of options, if none is missing. *)
Fixpoint opt_all {A : Type} (l : list (option A)) : option (list A) :=
  match l with
  | [] => Some []
  | None :: _ => None
  | Some a :: rest => option_map (cons a) (opt_all rest)
  end.

(** An [Err] outcome of an entry point. *)
Definition failed {A : Type} (r : option (PyResult A)) : bool :=
  match r with Some (Err _) => true | _ => false end.

(** The real number a finite binary32 value denotes ([0] for the
    others). *)
Definition f32_R (a : f32) : R :=
  match a with
  | Num (S754_finite s m e) =>
      let v := (IZR (Zpos m) * (if Z.leb 0 e then IZR (2 ^ e) else / IZR (2 ^ (- e))))%R in
      if s then (- v)%R else v
  | _ => 0%R
  end.

(** Every NaN has the sign [d]: no NaN came from an input. *)
Definition sign_ok (d : bool) (a : f32) : bool :=
  match a with
  | NaN s => Bool.eqb s d
  | Num S754_nan => false
  | Num _ => true
  end.

(** A zero or a NaN: what [x - x] gives. *)
Definition zero_or_nan (a : f32) : bool :=
  match a with
  | Num (S754_zero _) | Num S754_nan | NaN _ => true
  | _ => false
  end.

(** An optional intersection whose [len], if any, is a number. *)
Definition len_num (o : option Intersection) : bool :=
  match o with Some i => is_num (len i) | None => true end.
(** The ordering key of an optional intersection's [len]. *)
Definition okey (o : option Intersection) : option (Z * Z * Z) :=
  option_map (fun i => fkey (len i)) o.
(** [choose_closest] on keys: the second one only when strictly smaller. *)
Definition kmin (a b : Z * Z * Z) : Z * Z * Z :=
  match lex a b with Gt => b | _ => a end.
Definition omin (a b : option (Z * Z * Z)) : option (Z * Z * Z) :=
  match a, b with
  | Some u, Some v => Some (kmin u v)
  | None, _ => b
  | _, None => a
  end.

(** ** Signs of lengths *)

(** A canonical binary32 mantissa and exponent: subnormal ([e = -149])
    or normal (24 digits). *)
Definition canon (m e : Z) : Prop :=
  (e = -149 /\ m < 2 ^ 24) \/ (-149 < e /\ 2 ^ 23 <= m < 2 ^ 24).

(** A non-negative number: [+0], [+inf] or a positive finite value. *)
Definition nonneg_sf (v : spec_float) : Prop :=
  match v with
  | S754_zero s | S754_infinity s | S754_finite s _ _ => s = false
  | S754_nan => False
  end.
(** What [f32::sqrt] returns for a non-negative operand: a
    non-negative number with a canonical mantissa. *)
Definition sqrt_shape (v : spec_float) : Prop :=
  match v with
  | S754_finite s m e => s = false /\ canon (Zpos m) e
  | S754_zero s | S754_infinity s => s = false
  | S754_nan => False
  end.
(** A non-negative number or a NaN. *)
Definition nonneg_or_nan (a : f32) : Prop :=
  match a with NaN _ => True | Num v => nonneg_sf v end.
(** A well-formed binary32 encoding: a finite value has a canonical
    mantissa and exponent in range.  Every [f32] the caller can pass
    is one. *)
Definition valid_f32 (a : f32) : bool :=
  match a with Num v => valid_binary prec emax v | NaN _ => true end.

(** The [len] of an optional intersection is neither below [0] nor
    above [ray_len] (a NaN [len] is neither). *)
Definition len_in_range (ray_len : f32) (o : option Intersection) : bool :=
  match o with
  | Some i => negb (flt (len i) zero) && negb (fgt (len i) ray_len)
  | None => true
  end.

(** The closest of a list of optional hits: [o] is one of them, it is
    [None] only when all are [None], and its [len] is not greater than
    any hit's [len]. *)
Definition closest_among (o : option Intersection) (hits : list (option Intersection)) : Prop :=
  (forall i, o = Some i -> In (Some i) hits) /\
  (forall h, In (Some h) hits -> exists i, o = Some i /\ fgt (len i) (len h) = false).

(** Two results that are the same number, or both NaN. *)
Definition same_or_nan (a b : f32) : Prop :=
  match a, b with
  | NaN _, NaN _ => True
  | Num u, Num v => u = v
  | _, _ => False
  end.

Lemma lex_spec (a b : Z * Z * Z) : CompareSpec (a = b) (lexlt a b) (lexlt b a) (lex a b).
Proof.
  destruct a as [[a1 a2] a3], b as [[b1 b2] b3]; simpl.
  destruct (Z.compare_spec a1 b1) as [E1|L1|G1]; [subst b1| now constructor; left | now constructor; left].
  destruct (Z.compare_spec a2 b2) as [E2|L2|G2]; [subst b2| now constructor; right; split; [|left] | now constructor; right; split; [|left]].
  destruct (Z.compare_spec a3 b3) as [E3|L3|G3]; [subst b3; now constructor | constructor; right; split; [|right]; auto | constructor; right; split; [|right]; auto].
Qed.

Lemma lex_swap (a b : Z * Z * Z) : lex b a = CompOpp (lex a b).
Proof.
  destruct a as [[a1 a2] a3], b as [[b1 b2] b3]; simpl.
  rewrite (Z.compare_antisym a1 b1), (Z.compare_antisym a2 b2), (Z.compare_antisym a3 b3).
  destruct (a1 ?= b1), (a2 ?= b2), (a3 ?= b3); reflexivity.
Qed.

Lemma SFcompare_key (u v : spec_float) :
  u <> S754_nan -> v <> S754_nan -> SFcompare u v = Some (lex (key u) (key v)).
Proof.
  intros Hu Hv.
  destruct u as [su|su| |su mu eu], v as [sv|sv| |sv mv ev];
    try congruence; try destruct su; try destruct sv; simpl; try reflexivity.
  rewrite Z.compare_opp, (Z.compare_antisym eu ev).
  destruct (eu ?= ev); reflexivity.
Qed.

Lemma fcmp_num (a b : f32) :
  is_num a = true -> is_num b = true -> fcmp a b = Some (lex (fkey a) (fkey b)).
Proof.
  destruct a as [u|], b as [v|]; simpl; try discriminate.
  intros Ha Hb. apply SFcompare_key; intros ->; discriminate.
Qed.

Lemma fcmp_swap (a b : f32) : fcmp b a = option_map CompOpp (fcmp a b).
Proof.
  destruct (is_num a) eqn:Ha, (is_num b) eqn:Hb.
  - rewrite (fcmp_num a b), (fcmp_num b a), lex_swap by assumption. reflexivity.
  - destruct a as [[]|], b as [[]|]; simpl in *; try discriminate; destruct s; reflexivity.
  - destruct a as [[]|], b as [[]|]; simpl in *; try discriminate; try destruct s; try destruct s0;
      reflexivity.
  - destruct a as [[]|], b as [[]|]; simpl in *; try discriminate; reflexivity.
Qed.

Lemma flt_asym (a b : f32) : flt a b = true -> flt b a = false.
Proof.
  unfold flt. rewrite (fcmp_swap a b). destruct (fcmp a b) as [[]|]; simpl; congruence.
Qed.

Lemma feq_not_flt (a b : f32) : feq a b = true -> flt b a = false.
Proof.
  unfold feq, flt. rewrite (fcmp_swap a b). destruct (fcmp a b) as [[]|]; simpl; congruence.
Qed.

(** Claim C4: [choose_closest] returns [None] for two [None]s, the
    present one when exactly one is present, and, when both are
    present, the one with the smaller [len], the first one when the two
    [len]s are equal. *)
Theorem choose_closest_spec (a b : Intersection) :
  choose_closest None None = None /\
  choose_closest (Some a) None = Some a /\
  choose_closest None (Some b) = Some b /\
  (flt (len b) (len a) = true -> choose_closest (Some a) (Some b) = Some b) /\
  (flt (len a) (len b) = true -> choose_closest (Some a) (Some b) = Some a) /\
  (feq (len a) (len b) = true -> choose_closest (Some a) (Some b) = Some a).
Proof.
  repeat split; intros H; unfold choose_closest, fgt.
  - rewrite H. reflexivity.
  - rewrite (flt_asym _ _ H). reflexivity.
  - rewrite (feq_not_flt _ _ H). reflexivity.
Qed.

(** ** Rounding: positivity and absence of NaN *)

Lemma emin_value : emin prec emax = -149.
Proof. reflexivity. Qed.

Lemma shr_1_m (r : shr_record) : 0 <= shr_m r -> shr_m (shr_1 r) = Z.div2 (shr_m r).
Proof.
  destruct r as [m rr ss]; simpl; intros H.
  destruct m as [|[p|p|]|p]; simpl; try reflexivity; lia.
Qed.

Lemma iter_shr_1_m (p : positive) :
  forall r, 0 <= shr_m r ->
  shr_m (SpecFloat.iter_pos shr_1 p r) = Z.shiftr (shr_m r) (Zpos p) /\ 0 <= shr_m (SpecFloat.iter_pos shr_1 p r).
Proof.
  induction p as [p IH|p IH|]; intros r Hr; simpl.
  - assert (H1 : shr_m (shr_1 r) = Z.shiftr (shr_m r) 1)
      by (rewrite shr_1_m by assumption; apply Z.div2_spec).
    assert (H1' : 0 <= shr_m (shr_1 r)) by (rewrite H1; apply Z.shiftr_nonneg; assumption).
    destruct (IH _ H1') as [E2 N2]. destruct (IH _ N2) as [E3 N3].
    split; [|assumption].
    rewrite E3, E2, H1, !Z.shiftr_shiftr by lia. f_equal. lia.
  - destruct (IH _ Hr) as [E2 N2]. destruct (IH _ N2) as [E3 N3].
    split; [|assumption].
    rewrite E3, E2, Z.shiftr_shiftr by lia. f_equal. lia.
  - rewrite shr_1_m, Z.div2_spec by assumption.
    split; [reflexivity|]. apply Z.shiftr_nonneg; assumption.
Qed.

Lemma shr_m_shr (r : shr_record) (e n : Z) :
  0 <= shr_m r ->
  shr_m (fst (shr r e n)) = Z.shiftr (shr_m r) (Z.max 0 n) /\ snd (shr r e n) = e + Z.max 0 n.
Proof.
  intros Hr. destruct n as [|p|p]; simpl.
  - rewrite Z.shiftr_0_r. split; [reflexivity|lia].
  - split; [apply iter_shr_1_m; assumption|reflexivity].
  - rewrite Z.shiftr_0_r. split; [reflexivity|lia].
Qed.

Lemma shr_record_of_loc_m (m : Z) (l : location) : shr_m (shr_record_of_loc m l) = m.
Proof. destruct l as [|[]]; reflexivity. Qed.

Lemma Zdigits2_log2 (p : positive) : Zdigits2 (Zpos p) = Z.log2 (Zpos p) + 1.
Proof.
  simpl. assert (E : digits2_pos p = Pos.size p)
    by (induction p; simpl; congruence).
  rewrite E. destruct p; simpl; lia.
Qed.

Lemma shr_fexp_nonneg (m e : Z) (l : location) :
  0 <= m -> 0 <= shr_m (fst (shr_fexp prec emax m e l)).
Proof.
  intros Hm. unfold shr_fexp.
  destruct (shr_m_shr (shr_record_of_loc m l) e (fexp prec emax (Zdigits2 m + e) - e))
    as [E _]; [rewrite shr_record_of_loc_m; assumption|].
  rewrite E, shr_record_of_loc_m. apply Z.shiftr_nonneg. assumption.
Qed.

Lemma shr_fexp_pos (m e : Z) (l : location) :
  0 < m -> -149 <= e ->
  0 < shr_m (fst (shr_fexp prec emax m e l)) /\ -149 <= snd (shr_fexp prec emax m e l).
Proof.
  intros Hm He. unfold shr_fexp.
  destruct (shr_m_shr (shr_record_of_loc m l) e (fexp prec emax (Zdigits2 m + e) - e))
    as [E1 E2]; [rewrite shr_record_of_loc_m; lia|].
  rewrite E1, E2, shr_record_of_loc_m.
  destruct m as [|p|p]; try lia.
  rewrite Zdigits2_log2. unfold fexp. rewrite emin_value. unfold prec.
  set (k := Z.max 0 (Z.max (Z.log2 (Zpos p) + 1 + e - 24) (-149) - e)).
  assert (Hk : 0 <= k <= Z.log2 (Zpos p)) by (unfold k; pose proof (Z.log2_nonneg (Zpos p)); lia).
  split; [|lia].
  rewrite Z.shiftr_div_pow2 by lia.
  apply Z.div_str_pos. split.
  - apply Z.pow_pos_nonneg; lia.
  - apply Z.le_trans with (2 ^ Z.log2 (Zpos p)).
    + apply Z.pow_le_mono_r; lia.
    + apply Z.log2_spec. lia.
Qed.

Lemma round_nearest_even_ge (m : Z) (l : location) : m <= round_nearest_even m l.
Proof. destruct l as [|[]]; simpl; try lia. destruct (Z.even m); lia. Qed.

(** Rounding a non-negative mantissa never gives a NaN. *)
Lemma binary_round_aux_not_nan (sx : bool) (m e : Z) (l : location) :
  0 <= m -> binary_round_aux prec emax sx m e l <> S754_nan.
Proof.
  intros Hm. unfold binary_round_aux.
  pose proof (shr_fexp_nonneg m e l Hm) as H1.
  destruct (shr_fexp prec emax m e l) as [mrs1 e1]. simpl in H1.
  pose proof (round_nearest_even_ge (shr_m mrs1) (loc_of_shr_record mrs1)) as H2.
  pose proof (shr_fexp_nonneg (round_nearest_even (shr_m mrs1) (loc_of_shr_record mrs1)) e1 loc_Exact
    ltac:(lia)) as H3.
  destruct (shr_fexp prec emax _ e1 loc_Exact) as [mrs2 e2]. simpl in H3.
  destruct (shr_m mrs2); try lia; try discriminate.
  destruct (e2 <=? emax - prec); discriminate.
Qed.

(** Rounding a positive mantissa with an exponent in range gives a
    non-zero number of the same sign. *)
Lemma binary_round_aux_pos (sx : bool) (m e : Z) :
  0 < m -> -149 <= e ->
  match binary_round_aux prec emax sx m e loc_Exact with
  | S754_finite s _ _ | S754_infinity s => s = sx
  | _ => False
  end.
Proof.
  intros Hm He. unfold binary_round_aux.
  pose proof (shr_fexp_pos m e loc_Exact Hm He) as [H1 H1'].
  destruct (shr_fexp prec emax m e loc_Exact) as [mrs1 e1]. simpl in H1, H1'.
  pose proof (round_nearest_even_ge (shr_m mrs1) (loc_of_shr_record mrs1)) as H2.
  pose proof (shr_fexp_pos (round_nearest_even (shr_m mrs1) (loc_of_shr_record mrs1)) e1 loc_Exact
    ltac:(lia) H1') as [H3 _].
  destruct (shr_fexp prec emax _ e1 loc_Exact) as [mrs2 e2]. simpl in H3.
  destruct (shr_m mrs2); try lia.
  destruct (e2 <=? emax - prec); reflexivity.
Qed.

Lemma binary_normalize_not_nan (m e : Z) (sz : bool) :
  binary_normalize prec emax m e sz <> S754_nan.
Proof.
  destruct m as [|p|p]; simpl; try discriminate;
    unfold binary_round; destruct (shl_align _ _ _) as [mz ez];
    apply binary_round_aux_not_nan; lia.
Qed.

(** [n as f32] is a positive number for [n > 0]. *)
Lemma of_nat_pos (n : nat) :
  (0 < n)%nat ->
  match of_nat n with
  | Num (S754_finite false _ _) | Num (S754_infinity false) => True
  | _ => False
  end.
Proof.
  intros Hn. unfold of_nat, lit, binary_normalize.
  destruct (Z.of_nat n) eqn:E; [lia| |lia].
  unfold binary_round, shl_align.
  set (ex' := fexp prec emax (Zpos (digits2_pos p) + 0)).
  assert (Hex : -149 <= ex') by (unfold ex', fexp; rewrite emin_value; lia).
  destruct (ex' - 0) eqn:Ed.
  - pose proof (binary_round_aux_pos false (Zpos p) 0 ltac:(lia) ltac:(lia)) as H.
    destruct (binary_round_aux _ _ _ _ _ _); try contradiction; subst; exact I.
  - pose proof (binary_round_aux_pos false (Zpos p) 0 ltac:(lia) ltac:(lia)) as H.
    destruct (binary_round_aux _ _ _ _ _ _); try contradiction; subst; exact I.
  - pose proof (binary_round_aux_pos false (Zpos (Pos.iter xO p p0)) ex' ltac:(lia) Hex) as H.
    destruct (binary_round_aux _ _ _ _ _ _); try contradiction; subst; exact I.
Qed.

(** ** Structure of the entry points *)

Section Structure.

Variable dnan : bool.
Variables f32_cos f32_sin : f32 -> f32.

Lemma intersection_line_ok (ray_begin_x ray_begin_y ray_len ray_angle x1 y1 x2 y2 : f32) :
  intersection_line dnan f32_cos f32_sin ray_begin_x ray_begin_y ray_len ray_angle x1 y1 x2 y2
  = Ok (line_hit dnan f32_cos f32_sin ray_begin_x ray_begin_y ray_len ray_angle (x1, y1, x2, y2)).
Proof.
  unfold line_hit.
  destruct (intersection_line _ _ _ _ _ _ _ _ _ _ _) eqn:E; [reflexivity|].
  exfalso. revert E. unfold intersection_line. cbv zeta.
  repeat match goal with |- context [if ?b then _ else _] => destruct b end; discriminate.
Qed.

Lemma intersection_lines_loop_eq (ray_begin_x ray_begin_y ray_len ray_angle : f32)
    (lines : list Line) : forall closest,
  intersection_lines_loop dnan f32_cos f32_sin ray_begin_x ray_begin_y ray_len ray_angle closest lines
  = Ok (fold_left choose_closest
          (map (line_hit dnan f32_cos f32_sin ray_begin_x ray_begin_y ray_len ray_angle) lines)
          closest).
Proof.
  induction lines as [|[[[x1 y1] x2] y2] rest IH]; intros closest; simpl; [reflexivity|].
  rewrite intersection_line_ok. apply IH.
Qed.

Lemma intersection_circle_not_err (fuel : nat) : forall ray_begin_x ray_begin_y ray_len ray_angle
    circle_x circle_y circle_radius accuracy len0 e,
  intersection_circle dnan f32_cos f32_sin fuel ray_begin_x ray_begin_y ray_len ray_angle
    circle_x circle_y circle_radius accuracy len0 <> Some (Err e).
Proof.
  induction fuel as [|fuel IH]; intros; simpl; [discriminate|].
  destruct (fgt _ _); [discriminate|].
  destruct (fle _ _); [discriminate|].
  apply IH.
Qed.

Lemma intersection_circles_loop_eq (fuel : nat) (ray_begin_x ray_begin_y ray_len ray_angle accuracy : f32)
    (circles : list Circle) : forall closest,
  intersection_circles_loop dnan f32_cos f32_sin fuel ray_begin_x ray_begin_y ray_len ray_angle
    accuracy closest circles
  = option_map (fun rs => Ok (fold_left choose_closest rs closest))
      (opt_all (map (circle_hit dnan f32_cos f32_sin fuel ray_begin_x ray_begin_y ray_len ray_angle
                       accuracy) circles)).
Proof.
  induction circles as [|[[cx cy] r] rest IH]; intros closest; simpl; [reflexivity|].
  destruct (intersection_circle _ _ _ _ _ _ _ _ _ _ _ _ _) as [[h|e]|] eqn:E; simpl.
  - rewrite IH. destruct (opt_all _); reflexivity.
  - exfalso. eapply intersection_circle_not_err; exact E.
  - reflexivity.
Qed.

Lemma intersection_eq (fuel : nat) (ray_begin_x ray_begin_y ray_len ray_angle : f32)
    (lines : list Line) (circles : list Circle) (accuracy : f32) :
  intersection dnan f32_cos f32_sin fuel ray_begin_x ray_begin_y ray_len ray_angle lines circles accuracy
  = option_map (fun rs => Ok (choose_closest
        (fold_left choose_closest
           (map (line_hit dnan f32_cos f32_sin ray_begin_x ray_begin_y ray_len ray_angle) lines) None)
        (fold_left choose_closest rs None)))
      (opt_all (map (circle_hit dnan f32_cos f32_sin fuel ray_begin_x ray_begin_y ray_len ray_angle
                       accuracy) circles)).
Proof.
  unfold intersection, intersection_lines, intersection_circles.
  rewrite intersection_lines_loop_eq, intersection_circles_loop_eq.
  destruct (opt_all _); reflexivity.
Qed.

Lemma rays_loop_shape (fuel rays_count : nat) (fov angle_offset ray_begin_x ray_begin_y ray_len : f32)
    (lines : list Line) (circles : list Circle) (accuracy : f32) (indices : list nat) :
  match rays_loop dnan f32_cos f32_sin fuel rays_count fov angle_offset ray_begin_x ray_begin_y
          ray_len lines circles accuracy indices with
  | None => True
  | Some (Err _) => False
  | Some (Ok rs) =>
      map Ray.angle rs = map (ray_angle_of dnan rays_count fov angle_offset) indices /\
      Forall (fun r => Ray.x r = ray_begin_x /\ Ray.y r = ray_begin_y) rs
  end.
Proof.
  induction indices as [|i rest IH]; simpl; [split; [reflexivity|constructor]|].
  rewrite intersection_eq. destruct (opt_all _); simpl; [|exact I].
  destruct (rays_loop _ _ _ _ _ _ _ _ _ _ _ _ _ _) as [[rs|e]|]; [|contradiction|exact I].
  destruct IH as [IH1 IH2]. simpl. split; [congruence|constructor; auto].
Qed.


End Structure.

(** ** Scenario A *)

(** The segment [(5,-5)-(5,5)] is vertical: its slope is [10 / 0 = inf],
    and the intersection point is computed as NaN.  The NaN's sign is
    the platform's default NaN sign [dnan]: with a negative one the
    cosine test rejects the point, otherwise the NaN point is returned. *)
Lemma scenario_a_run (d : bool) (f32_cos f32_sin : f32 -> f32) :
  f32_cos zero = one -> f32_sin zero = zero ->
  intersection_line d f32_cos f32_sin zero zero (lit 10 0) zero
    (lit 5 0) (lit (-5) 0) (lit 5 0) (lit 5 0)
  = if d then Ok None else Ok (Some (mkIntersection (NaN false) (NaN false) (NaN false))).
Proof.
  intros Hc Hs. unfold intersection_line. rewrite Hc, Hs.
  destruct d; vm_compute; reflexivity.
Qed.

(** Claim C1 (amended): for Scenario A (origin [(0,0)], angle [0],
    [ray_len = 10], segment from [(5,-5)] to [(5,5)]), with [cos 0 = 1]
    and [sin 0 = 0], the Segment Intersector returns [None] when the
    platform's default NaN is negative, and otherwise an intersection
    whose [x], [y] and [len] are all NaN; never the point [(5,0)]. *)
Theorem scenario_a_nan (d : bool) (f32_cos f32_sin : f32 -> f32)
    (Hcos : f32_cos zero = one) (Hsin : f32_sin zero = zero) :
  intersection_line d f32_cos f32_sin zero zero (lit 10 0) zero
    (lit 5 0) (lit (-5) 0) (lit 5 0) (lit 5 0)
  = if d then Ok None else Ok (Some (mkIntersection (NaN false) (NaN false) (NaN false))).
Proof. exact (scenario_a_run d f32_cos f32_sin Hcos Hsin). Qed.

Lemma scenario_a_nan_witness :
  cos_ref zero = one /\ sin_ref zero = zero /\
  intersection_line true cos_ref sin_ref zero zero (lit 10 0) zero
    (lit 5 0) (lit (-5) 0) (lit 5 0) (lit 5 0) = Ok None.
Proof.
  split; [reflexivity|split; [reflexivity|]].
  apply (scenario_a_nan true cos_ref sin_ref); reflexivity.
Defined.

(** Scenario A never yields the hit [(5,0)] with [len = 5], whatever
    the platform's NaN sign. *)
Lemma scenario_a_no_hit_at_5 :
  ~ (exists (d : bool) (f32_cos f32_sin : f32 -> f32) (i : Intersection),
        f32_cos zero = one /\ f32_sin zero = zero /\
        intersection_line d f32_cos f32_sin zero zero (lit 10 0) zero
          (lit 5 0) (lit (-5) 0) (lit 5 0) (lit 5 0) = Ok (Some i) /\
        feq (x i) (lit 5 0) = true /\ feq (y i) zero = true /\ feq (len i) (lit 5 0) = true).
Proof.
  intros (d & c & s & i & Hc & Hs & E & Hx & _).
  rewrite (scenario_a_run d c s Hc Hs) in E.
  destruct d; inversion E; subst; discriminate.
Qed.

(** ** No input is rejected *)

(** Claim C9 (amended): no entry point rejects its input.  The Segment
    Intersector and the segment scan always return [Ok]; the Circle
    Refiner, the circle scan, [intersection] and [rays] never return
    [Err] (the refiner may fail to return at all); and [rays] with
    [rays_count = 0] returns an empty list.  There is no validation of
    [ray_len], radius, accuracy or [rays_count]. *)
Theorem entry_points_never_reject (fuel : nat) (d : bool) (f32_cos f32_sin : f32 -> f32)
    (view_angle fov ray_begin_x ray_begin_y ray_len ray_angle : f32)
    (line_x1 line_y1 line_x2 line_y2 circle_x circle_y circle_radius accuracy len0 : f32)
    (rays_count : nat) (lines : list Line) (circles : list Circle) :
  (exists v, intersection_line d f32_cos f32_sin ray_begin_x ray_begin_y ray_len ray_angle
               line_x1 line_y1 line_x2 line_y2 = Ok v) /\
  (exists v, intersection_lines d f32_cos f32_sin ray_begin_x ray_begin_y ray_len ray_angle lines
               = Ok v) /\
  failed (intersection_circle d f32_cos f32_sin fuel ray_begin_x ray_begin_y ray_len ray_angle
            circle_x circle_y circle_radius accuracy len0) = false /\
  failed (intersection_circles d f32_cos f32_sin fuel ray_begin_x ray_begin_y ray_len ray_angle
            circles accuracy) = false /\
  failed (intersection d f32_cos f32_sin fuel ray_begin_x ray_begin_y ray_len ray_angle
            lines circles accuracy) = false /\
  failed (rays d f32_cos f32_sin fuel view_angle fov rays_count ray_begin_x ray_begin_y ray_len
            lines circles accuracy) = false /\
  rays d f32_cos f32_sin fuel view_angle fov 0 ray_begin_x ray_begin_y ray_len lines circles accuracy
    = Some (Ok []).
Proof.
  split; [eexists; apply intersection_line_ok|].
  split; [eexists; apply intersection_lines_loop_eq|].
  split.
  { destruct (intersection_circle _ _ _ _ _ _ _ _ _ _ _ _ _) as [[v|e]|] eqn:E; try reflexivity.
    exfalso. eapply intersection_circle_not_err. exact E. }
  split.
  { unfold intersection_circles. rewrite intersection_circles_loop_eq.
    destruct (opt_all _); reflexivity. }
  split.
  { rewrite intersection_eq. destruct (opt_all _); reflexivity. }
  split; [|reflexivity].
  unfold rays.
  pose proof (rays_loop_shape d f32_cos f32_sin fuel rays_count fov (fsub d view_angle (fdiv d fov two))
    ray_begin_x ray_begin_y ray_len lines circles accuracy (seq 0 rays_count)) as H.
  destruct (rays_loop _ _ _ _ _ _ _ _ _ _ _ _ _ _) as [[v|e]|]; [reflexivity|contradiction|reflexivity].
Qed.

(** Negative [ray_len], negative radius, zero accuracy and
    [rays_count = 0] all give ordinary results. *)
Lemma invalid_inputs_accepted :
  rays true cos_ref sin_ref 10 zero zero 1 zero zero (lit (-1) 0) [] [(zero, zero, lit (-1) 0)] zero
    = Some (Ok [Ray.mk zero zero zero None]) /\
  rays true cos_ref sin_ref 10 zero zero 0 zero zero (lit (-1) 0) [] [(zero, zero, lit (-1) 0)] zero
    = Some (Ok []).
Proof. split; vm_compute; reflexivity. Qed.

(** ** The Circle Refiner's acceptance test *)

Lemma f32_R_neg_exp (m : positive) (e : Z) :
  e < 0 -> f32_R (Num (S754_finite false m e)) = (IZR (Zpos m) / IZR (2 ^ (- e)))%R.
Proof. intros He. unfold f32_R. destruct (Z.leb_spec 0 e); [lia|reflexivity]. Qed.

Lemma intersection_circle_accepts (d : bool) (f32_cos f32_sin : f32 -> f32) (fuel : nat) :
  forall (ray_begin_x ray_begin_y ray_len ray_angle circle_x circle_y circle_radius accuracy len0 : f32)
    (i : Intersection),
  intersection_circle d f32_cos f32_sin fuel ray_begin_x ray_begin_y ray_len ray_angle
    circle_x circle_y circle_radius accuracy len0 = Some (Ok (Some i)) ->
  fle (len_to_circle_at d (x i) (y i) circle_x circle_y circle_radius) accuracy = true.
Proof.
  induction fuel as [|fuel IH]; intros bx by0 rl a cx cy r acc l0 i H; simpl in H; [discriminate|].
  destruct (fgt l0 rl); [discriminate|].
  destruct (fle (len_to_circle_at d bx by0 cx cy r) acc) eqn:E.
  - inversion H; subst; simpl. exact E.
  - eapply IH. exact H.
Qed.

(** Claim C6 (amended): whenever the Circle Refiner returns an
    intersection, the distance to the circle's surface it computes in
    [f32] at the returned point, [len_to_circle], is at most
    [accuracy].  The true (real-number) distance may exceed it. *)
Theorem circle_refiner_within_accuracy (d : bool) (f32_cos f32_sin : f32 -> f32) (fuel : nat)
    (ray_begin_x ray_begin_y ray_len ray_angle circle_x circle_y circle_radius accuracy len0 : f32)
    (i : Intersection)
    (H : intersection_circle d f32_cos f32_sin fuel ray_begin_x ray_begin_y ray_len ray_angle
           circle_x circle_y circle_radius accuracy len0 = Some (Ok (Some i))) :
  fle (len_to_circle_at d (x i) (y i) circle_x circle_y circle_radius) accuracy = true.
Proof. exact (intersection_circle_accepts d f32_cos f32_sin fuel _ _ _ _ _ _ _ _ _ i H). Qed.

Lemma circle_refiner_within_accuracy_witness :
  intersection_circle true cos_ref sin_ref 1 zero zero (lit 10 0) zero one zero one one zero
    = Some (Ok (Some (mkIntersection zero zero zero))) /\
  fle (len_to_circle_at true zero zero one zero one) one = true.
Proof.
  split; [vm_compute; reflexivity|].
  exact (circle_refiner_within_accuracy true cos_ref sin_ref 1 zero zero (lit 10 0) zero
           one zero one one zero (mkIntersection zero zero zero) ltac:(vm_compute; reflexivity)).
Defined.

(** The circle of centre [(1,1)] through the origin, with the radius
    [fl(sqrt 2)] the refiner itself computes: the origin is accepted
    at once with accuracy [2^-40], yet its true distance to the
    surface, [|sqrt 2 - fl(sqrt 2)|], is about [2.4e-8]. *)
Lemma circle_refiner_true_distance_exceeds :
  intersection_circle true cos_ref sin_ref 1 zero zero (lit 10 0) zero one one
    (Num (S754_finite false 11863283 (-23))) (lit 1 (-40)) zero
    = Some (Ok (Some (mkIntersection zero zero zero))) /\
  (Rabs (sqrt ((f32_R zero - f32_R one) ^ 2 + (f32_R zero - f32_R one) ^ 2)
         - f32_R (Num (S754_finite false 11863283 (-23))))
   > f32_R (lit 1 (-40)))%R.
Proof.
  split; [vm_compute; reflexivity|].
  change one with (Num (S754_finite false 8388608 (-23))).
  change (lit 1 (-40)) with (Num (S754_finite false 8388608 (-63))).
  change (f32_R zero) with 0%R.
  rewrite !f32_R_neg_exp by lia.
  change (2 ^ (- -23)) with 8388608. change (2 ^ (- -63)) with 9223372036854775808.
  set (r := (IZR 11863283 / IZR 8388608)%R).
  set (eps := (IZR 8388608 / IZR 9223372036854775808)%R).
  replace ((0 - IZR 8388608 / IZR 8388608) ^ 2 + (0 - IZR 8388608 / IZR 8388608) ^ 2)%R
    with 2%R by (field; lra).
  assert (Hs : (sqrt 2 * sqrt 2 = 2)%R) by (apply sqrt_sqrt; lra).
  assert (Hs0 : (0 <= sqrt 2)%R) by apply sqrt_pos.
  assert (Hr : (r = 11863283 / 8388608)%R) by (unfold r; reflexivity).
  assert (He : (eps = 8388608 / 9223372036854775808)%R) by (unfold eps; reflexivity).
  assert (Hlt : (sqrt 2 - r > eps)%R).
  { apply Rnot_le_gt. intros Hle.
    assert (Hb : (sqrt 2 <= r + eps)%R) by lra.
    assert (Hsq : (sqrt 2 * sqrt 2 <= (r + eps) * (r + eps))%R)
      by (apply Rmult_le_compat; lra).
    rewrite Hs, Hr, He in Hsq. lra. }
  apply Rlt_le_trans with (sqrt 2 - r)%R; [lra|].
  apply Rle_abs.
Qed.

(** ** Termination of the Circle Refiner *)

(** A non-accepting step that leaves the point and [len] unchanged
    repeats forever. *)
Lemma intersection_circle_stuck (d : bool) (f32_cos f32_sin : f32 -> f32)
    (ray_begin_x ray_begin_y ray_len ray_angle circle_x circle_y circle_radius accuracy len0 : f32) :
  let len_to_circle := len_to_circle_at d ray_begin_x ray_begin_y circle_x circle_y circle_radius in
  fgt len0 ray_len = false ->
  fle len_to_circle accuracy = false ->
  fadd d (fmul d (f32_cos ray_angle) len_to_circle) ray_begin_x = ray_begin_x ->
  fadd d (fmul d (f32_sin ray_angle) len_to_circle) ray_begin_y = ray_begin_y ->
  fadd d len0 len_to_circle = len0 ->
  forall fuel, intersection_circle d f32_cos f32_sin fuel ray_begin_x ray_begin_y ray_len ray_angle
                 circle_x circle_y circle_radius accuracy len0 = None.
Proof.
  intros ltc H1 H2 H3 H4 H5 fuel. induction fuel as [|fuel IH]; [reflexivity|].
  simpl. rewrite H1. fold ltc. rewrite H2, H3, H4, H5. exact IH.
Qed.

(** Claim C10 (amended): the Circle Refiner does not always terminate.
    A non-accepting step has [len_to_circle] greater than [accuracy]
    or NaN, but the [f32] updates [next_x], [next_y] and
    [len + len_to_circle] may round back to the current values; a step
    that leaves the point and [len] unchanged makes the refiner recurse
    forever, whatever the recursion budget. *)
Theorem circle_refiner_no_progress_diverges (d : bool) (f32_cos f32_sin : f32 -> f32)
    (ray_begin_x ray_begin_y ray_len ray_angle circle_x circle_y circle_radius accuracy len0 : f32)
    (Hlen : fgt len0 ray_len = false)
    (Hacc : fle (len_to_circle_at d ray_begin_x ray_begin_y circle_x circle_y circle_radius)
              accuracy = false)
    (Hx : fadd d (fmul d (f32_cos ray_angle)
             (len_to_circle_at d ray_begin_x ray_begin_y circle_x circle_y circle_radius))
             ray_begin_x = ray_begin_x)
    (Hy : fadd d (fmul d (f32_sin ray_angle)
             (len_to_circle_at d ray_begin_x ray_begin_y circle_x circle_y circle_radius))
             ray_begin_y = ray_begin_y)
    (Hl : fadd d len0 (len_to_circle_at d ray_begin_x ray_begin_y circle_x circle_y circle_radius)
            = len0)
    (fuel : nat) :
  intersection_circle d f32_cos f32_sin fuel ray_begin_x ray_begin_y ray_len ray_angle
    circle_x circle_y circle_radius accuracy len0 = None.
Proof. exact (intersection_circle_stuck d f32_cos f32_sin _ _ _ _ _ _ _ _ _ Hlen Hacc Hx Hy Hl fuel). Qed.

(** The ray along the x axis at [x = 2^30], [len = 2^31], towards the
    circle of centre [(2^30, 100)] and radius [50]: [len_to_circle = 50],
    but [2^30 + 50] rounds to [2^30] and [2^31 + 50] to [2^31]. *)
Lemma circle_refiner_no_progress_diverges_witness :
  fgt (lit 1 31) (lit 1 32) = false /\
  fle (len_to_circle_at true (lit 1 30) zero (lit 1 30) (lit 100 0) (lit 50 0)) one = false /\
  intersection_circle true cos_ref sin_ref 7 (lit 1 30) zero (lit 1 32) zero
    (lit 1 30) (lit 100 0) (lit 50 0) one (lit 1 31) = None.
Proof.
  split; [vm_compute; reflexivity|]. split; [vm_compute; reflexivity|].
  apply (circle_refiner_no_progress_diverges true cos_ref sin_ref); vm_compute; reflexivity.
Defined.

(** Two inputs with [accuracy = 1 > 0] and a finite non-negative
    [ray_len] on which the refiner never returns: a NaN circle centre
    (from [len = 0]: [len] becomes NaN and [len > ray_len] stays
    false), and the absorbing step above. *)
Lemma circle_refiner_runs_forever :
  (~ exists (fuel : nat) (res : PyResult (option Intersection)),
       intersection_circle true cos_ref sin_ref fuel zero zero (lit 10 0) zero
         (NaN false) zero one one zero = Some res) /\
  (~ exists (fuel : nat) (res : PyResult (option Intersection)),
       intersection_circle true cos_ref sin_ref fuel (lit 1 30) zero (lit 1 32) zero
         (lit 1 30) (lit 100 0) (lit 50 0) one (lit 1 31) = Some res).
Proof.
  split; intros (fuel & res & H).
  - destruct fuel as [|fuel]; [discriminate|].
    assert (E : intersection_circle true cos_ref sin_ref (S fuel) zero zero (lit 10 0) zero
                  (NaN false) zero one one zero
                = intersection_circle true cos_ref sin_ref fuel (NaN false) (NaN false) (lit 10 0) zero
                  (NaN false) zero one one (NaN false)) by reflexivity.
    rewrite E, (intersection_circle_stuck true cos_ref sin_ref) in H; [discriminate| ..];
      vm_compute; reflexivity.
  - rewrite (intersection_circle_stuck true cos_ref sin_ref) in H; [discriminate| ..];
      vm_compute; reflexivity.
Qed.

(** ** The Segment Intersector's cosine test *)

Lemma intersection_line_candidate (d : bool) (f32_cos f32_sin : f32 -> f32)
    (bx by' rl ang x1 y1 x2 y2 : f32) :
  intersection_line d f32_cos f32_sin bx by' rl ang x1 y1 x2 y2 =
  match line_candidate d f32_cos f32_sin bx by' rl ang x1 y1 x2 y2 with
  | None => Ok None
  | Some (px, py, plen) =>
      if is_sign_negative
           (vectors_cos d bx by' (fadd d (fmul d (f32_cos ang) rl) bx)
              (fadd d (fmul d (f32_sin ang) rl) by') px py plen rl)
      then Ok None else Ok (Some (mkIntersection px py plen))
  end.
Proof.
  unfold intersection_line, line_candidate. cbv zeta.
  destruct (feq _ zero); [reflexivity|].
  destruct (orb _ _); [reflexivity|].
  destruct (fgt _ rl); reflexivity.
Qed.

Lemma of_sf_not_nan (d : bool) (v : spec_float) : of_sf d v <> Num S754_nan.
Proof. destruct v; discriminate. Qed.

Lemma binop_not_nan (d : bool) op (a b : f32) : binop d op a b <> Num S754_nan.
Proof. destruct a, b; cbn [binop]; try discriminate. apply of_sf_not_nan. Qed.

(** [is_sign_negative] on a value other than [Num S754_nan]: a negative
    number (below [+0]), [-0] or a negative NaN. *)
Lemma sign_negative_iff (c : f32) (Hc : c <> Num S754_nan) :
  is_sign_negative c = true <-> flt c zero = true \/ c = Num (S754_zero true) \/ c = NaN true.
Proof.
  destruct c as [[s|s| |s m e]|s]; cbn; try (destruct s); try tauto;
    try (split; [intros H; discriminate H|intros [H|[H|H]]; discriminate H]);
    try (split; [intros _; auto|reflexivity]).
Qed.

(** Claim C7 (amended): the Segment Intersector rejects a point exactly
    when the sign bit of the computed cosine is set (negative numbers,
    [-0] and negative NaNs).  A returned intersection is the candidate
    point with a cosine whose sign bit is clear; for a candidate point
    that passed the earlier tests, the result is [Ok(None)] exactly when
    the sign bit of its cosine is set, and the point itself exactly when
    it is clear; the sign bit is set exactly for a cosine below [+0],
    [-0] or a negative NaN; and a cosine of [+0] is accepted. *)
Theorem segment_cosine_sign (d : bool) (f32_cos f32_sin : f32 -> f32)
    (ray_begin_x ray_begin_y ray_len ray_angle line_x1 line_y1 line_x2 line_y2 : f32) :
  (forall i,
     intersection_line d f32_cos f32_sin ray_begin_x ray_begin_y ray_len ray_angle
       line_x1 line_y1 line_x2 line_y2 = Ok (Some i) ->
     line_candidate d f32_cos f32_sin ray_begin_x ray_begin_y ray_len ray_angle
       line_x1 line_y1 line_x2 line_y2 = Some (x i, y i, len i) /\
     is_sign_negative
       (vectors_cos d ray_begin_x ray_begin_y
          (fadd d (fmul d (f32_cos ray_angle) ray_len) ray_begin_x)
          (fadd d (fmul d (f32_sin ray_angle) ray_len) ray_begin_y)
          (x i) (y i) (len i) ray_len) = false) /\
  (forall px py plen,
     line_candidate d f32_cos f32_sin ray_begin_x ray_begin_y ray_len ray_angle
       line_x1 line_y1 line_x2 line_y2 = Some (px, py, plen) ->
     let cos := vectors_cos d ray_begin_x ray_begin_y
                  (fadd d (fmul d (f32_cos ray_angle) ray_len) ray_begin_x)
                  (fadd d (fmul d (f32_sin ray_angle) ray_len) ray_begin_y)
                  px py plen ray_len in
     (intersection_line d f32_cos f32_sin ray_begin_x ray_begin_y ray_len ray_angle
        line_x1 line_y1 line_x2 line_y2 = Ok None <-> is_sign_negative cos = true) /\
     (intersection_line d f32_cos f32_sin ray_begin_x ray_begin_y ray_len ray_angle
        line_x1 line_y1 line_x2 line_y2 = Ok (Some (mkIntersection px py plen))
      <-> is_sign_negative cos = false) /\
     (is_sign_negative cos = true <->
        flt cos zero = true \/ cos = Num (S754_zero true) \/ cos = NaN true) /\
     (cos = zero ->
      intersection_line d f32_cos f32_sin ray_begin_x ray_begin_y ray_len ray_angle
        line_x1 line_y1 line_x2 line_y2 = Ok (Some (mkIntersection px py plen)))).
Proof.
  rewrite !intersection_line_candidate. split.
  - intros i. destruct (line_candidate _ _ _ _ _ _ _ _ _ _ _) as [[[px py] plen]|];
      [|discriminate].
    destruct (is_sign_negative _) eqn:E; [discriminate|].
    intros H. injection H as <-. split; [reflexivity|exact E].
  - intros px py plen Hc. rewrite Hc. cbv zeta.
    match goal with |- context [is_sign_negative ?c] =>
      pose proof (sign_negative_iff c (binop_not_nan _ _ _ _)) as G end.
    destruct (is_sign_negative _) eqn:E.
    + split; [split; reflexivity|].
      split; [split; discriminate|].
      split; [split; [intros _; apply G; reflexivity|reflexivity]|].
      intros Z. rewrite Z in E. discriminate E.
    + split; [split; discriminate|].
      split; [split; reflexivity|].
      split; [split; [discriminate|intros P; apply G, P]|].
      intros _; reflexivity.
Qed.

(** The ray of angle [2] from [(-3225677, -1975816.5)], with
    [cos 2 = -13963571 * 2^-25] and [sin 2 = 15255479 * 2^-24]: the
    candidate point has a cosine of exactly [+0] and is returned. *)
Lemma segment_cosine_sign_witness :
  line_candidate true cos_ref sin_ref (lit (-12902708) (-2)) (lit (-15806532) (-3))
    (lit 9151036 (-24)) two (lit (-12902673) (-2)) (lit (-15806532) (-3))
    (lit (-12902769) (-2)) (lit (-15806530) (-3))
  = Some (lit (-12902707) (-2), lit (-15806531) (-3), lit 9378749 (-25)) /\
  vectors_cos true (lit (-12902708) (-2)) (lit (-15806532) (-3))
    (fadd true (fmul true (cos_ref two) (lit 9151036 (-24))) (lit (-12902708) (-2)))
    (fadd true (fmul true (sin_ref two) (lit 9151036 (-24))) (lit (-15806532) (-3)))
    (lit (-12902707) (-2)) (lit (-15806531) (-3)) (lit 9378749 (-25)) (lit 9151036 (-24)) = zero /\
  intersection_line true cos_ref sin_ref (lit (-12902708) (-2)) (lit (-15806532) (-3))
    (lit 9151036 (-24)) two (lit (-12902673) (-2)) (lit (-15806532) (-3))
    (lit (-12902769) (-2)) (lit (-15806530) (-3))
  = Ok (Some (mkIntersection (lit (-12902707) (-2)) (lit (-15806531) (-3)) (lit 9378749 (-25)))).
Proof.
  assert (Hc : line_candidate true cos_ref sin_ref (lit (-12902708) (-2)) (lit (-15806532) (-3))
    (lit 9151036 (-24)) two (lit (-12902673) (-2)) (lit (-15806532) (-3))
    (lit (-12902769) (-2)) (lit (-15806530) (-3))
    = Some (lit (-12902707) (-2), lit (-15806531) (-3), lit 9378749 (-25)))
    by (vm_compute; reflexivity).
  assert (Hz : vectors_cos true (lit (-12902708) (-2)) (lit (-15806532) (-3))
    (fadd true (fmul true (cos_ref two) (lit 9151036 (-24))) (lit (-12902708) (-2)))
    (fadd true (fmul true (sin_ref two) (lit 9151036 (-24))) (lit (-15806532) (-3)))
    (lit (-12902707) (-2)) (lit (-15806531) (-3)) (lit 9378749 (-25)) (lit 9151036 (-24)) = zero)
    by (vm_compute; reflexivity).
  split; [exact Hc|split; [exact Hz|]].
  exact (proj2 (proj2 (proj2 (proj2 (segment_cosine_sign true cos_ref sin_ref _ _ _ _ _ _ _ _)
    _ _ _ Hc))) Hz).
Defined.

(** On the same input the computed cosine is exactly [+0], and the
    point is returned, for either NaN sign. *)
Lemma zero_cosine_accepted :
  forallb (fun d =>
    match intersection_line d cos_ref sin_ref (lit (-12902708) (-2)) (lit (-15806532) (-3))
            (lit 9151036 (-24)) two (lit (-12902673) (-2)) (lit (-15806532) (-3))
            (lit (-12902769) (-2)) (lit (-15806530) (-3)) with
    | Ok (Some i) =>
        feq (vectors_cos d (lit (-12902708) (-2)) (lit (-15806532) (-3))
               (fadd d (fmul d (cos_ref two) (lit 9151036 (-24))) (lit (-12902708) (-2)))
               (fadd d (fmul d (sin_ref two) (lit 9151036 (-24))) (lit (-15806532) (-3)))
               (x i) (y i) (len i) (lit 9151036 (-24))) zero
    | _ => false
    end) [true; false] = true.
Proof. vm_compute. reflexivity. Qed.

(** ** Propagation of non-finite values *)

Lemma key_eq_finite (s1 s2 : bool) (m1 m2 : positive) (e1 e2 : Z) :
  SFcompare (S754_finite s1 m1 e1) (S754_finite s2 m2 e2) = Some Eq ->
  s1 = s2 /\ m1 = m2 /\ e1 = e2.
Proof.
  intros H. destruct s1, s2; simpl in H; try discriminate;
    destruct (Z.compare_spec e1 e2); try discriminate; subst;
    change (Pos.compare_cont Eq m1 m2) with (Pos.compare m1 m2) in H;
    destruct (Pos.compare_spec m1 m2); simpl in H; try discriminate; subst; auto.
Qed.

Lemma SFsub_finite_self (s : bool) (m : positive) (e : Z) :
  SFsub prec emax (S754_finite s m e) (S754_finite s m e) = S754_zero false.
Proof. simpl. rewrite Z.sub_diag. reflexivity. Qed.

Section NanFacts.

Variable d : bool.

Ltac f32_cases a :=
  let s := fresh "s" in let m := fresh "m" in let e := fresh "e" in
  destruct a as [[s|s| |s m e]|s].

Lemma sign_ok_num (a : f32) : is_num a = true -> sign_ok d a = true.
Proof. f32_cases a; simpl; congruence. Qed.

Lemma sign_ok_binop (op : spec_float -> spec_float -> spec_float) (a b : f32) :
  sign_ok d a = true -> sign_ok d b = true -> sign_ok d (binop d op a b) = true.
Proof.
  destruct a as [va|sa], b as [vb|sb]; simpl; auto.
  - intros Ha _. destruct va; try discriminate; unfold of_sf;
      destruct (op _ vb); try reflexivity; apply eqb_reflx.
Qed.

Lemma sign_ok_fadd a b : sign_ok d a = true -> sign_ok d b = true -> sign_ok d (fadd d a b) = true.
Proof. apply sign_ok_binop. Qed.
Lemma sign_ok_fsub a b : sign_ok d a = true -> sign_ok d b = true -> sign_ok d (fsub d a b) = true.
Proof. apply sign_ok_binop. Qed.
Lemma sign_ok_fmul a b : sign_ok d a = true -> sign_ok d b = true -> sign_ok d (fmul d a b) = true.
Proof. apply sign_ok_binop. Qed.
Lemma sign_ok_fdiv a b : sign_ok d a = true -> sign_ok d b = true -> sign_ok d (fdiv d a b) = true.
Proof. apply sign_ok_binop. Qed.

Lemma nan_sign (a : f32) : is_nan a = true -> sign_ok d a = true -> a = NaN d.
Proof. destruct a as [|s]; simpl; [discriminate|]. intros _ H. apply eqb_prop in H. congruence. Qed.

Lemma fsub_nan_r a : sign_ok d a = true -> fsub d a (NaN d) = NaN d.
Proof. destruct a as [|s]; simpl; [reflexivity|]. intros H. apply eqb_prop in H. congruence. Qed.
Lemma fmul_nan_r a : sign_ok d a = true -> fmul d a (NaN d) = NaN d.
Proof. destruct a as [|s]; simpl; [reflexivity|]. intros H. apply eqb_prop in H. congruence. Qed.

Lemma fgt_nan_l (a : f32) (s : bool) : fgt (NaN s) a = false.
Proof. destruct a; reflexivity. Qed.
Lemma fgt_nan_r (a : f32) (s : bool) : fgt a (NaN s) = false.
Proof. reflexivity. Qed.

Lemma nf_mul_l a b : is_finite a = false -> is_finite (fmul d a b) = false.
Proof. intros H. f32_cases a; simpl in H; try discriminate; f32_cases b; simpl; try reflexivity. Qed.
Lemma nf_mul_r a b : is_finite b = false -> is_finite (fmul d a b) = false.
Proof. intros H. f32_cases b; simpl in H; try discriminate; f32_cases a; simpl; try reflexivity. Qed.
Lemma nf_sub_l a b : is_finite a = false -> is_finite (fsub d a b) = false.
Proof.
  intros H. f32_cases a; simpl in H; try discriminate; f32_cases b; simpl; try reflexivity;
    destruct s; try destruct s0; reflexivity.
Qed.
Lemma nf_sub_r a b : is_finite b = false -> is_finite (fsub d a b) = false.
Proof.
  intros H. f32_cases b; simpl in H; try discriminate; f32_cases a; simpl; try reflexivity;
    destruct s; try destruct s0; reflexivity.
Qed.

(** Dividing by a zero or a NaN. *)
Lemma div_zero_nf a b : zero_or_nan b = true -> is_finite (fdiv d a b) = false.
Proof. intros H. f32_cases b; simpl in H; try discriminate; f32_cases a; simpl; try reflexivity. Qed.

(** [inf / inf], and every division involving a NaN, is a NaN. *)
Lemma nf_div_nf a b :
  is_finite a = false -> is_finite b = false -> sign_ok d a = true -> sign_ok d b = true ->
  fdiv d a b = NaN d.
Proof.
  intros Ha Hb Sa Sb. apply nan_sign; [|apply sign_ok_fdiv; assumption].
  f32_cases a; simpl in Ha; try discriminate; f32_cases b; simpl in Hb; try discriminate;
    reflexivity.
Qed.

Lemma feq_nf a : is_finite a = false -> feq a zero = false.
Proof. intros H. f32_cases a; simpl in H; try discriminate; try reflexivity; destruct s; reflexivity. Qed.

(** [a == b] gives [a - b] zero or NaN. *)
Lemma sub_feq_zero a b : feq a b = true -> zero_or_nan (fsub d a b) = true.
Proof.
  f32_cases a; f32_cases b; simpl; try reflexivity; try discriminate;
    try (destruct s, s0; discriminate || reflexivity).
  unfold feq, fcmp. intros H.
  destruct (SFcompare _ _) as [[]|] eqn:E; try discriminate.
  destruct (key_eq_finite _ _ _ _ _ _ E) as (-> & -> & ->).
  first [rewrite SFsub_finite_self | rewrite Z.sub_diag]; reflexivity.
Qed.

(** The ray's [x] difference when [cos] is a zero: [(0 * len + x) - x]. *)
Lemma vertical_diff c l bx :
  feq c zero = true -> is_num l = true -> is_num bx = true ->
  zero_or_nan (fsub d (fadd d (fmul d c l) bx) bx) = true.
Proof.
  intros Hc Hl Hb.
  f32_cases c; simpl in Hc; try discriminate; try (destruct s; discriminate).
  f32_cases l; simpl in Hl; try discriminate;
  f32_cases bx; simpl in Hb; try discriminate;
  unfold fsub, fadd, fmul, binop; cbn [SFmul of_sf SFadd].
  all: first [ rewrite SFsub_finite_self; reflexivity
             | reflexivity
             | destruct s1; reflexivity
             | destruct s, s0, s1; reflexivity ].
Qed.

Lemma vector_len_nan a b : sign_ok d a = true -> sign_ok d b = true ->
  vector_len d a b (NaN d) (NaN d) = NaN d.
Proof. intros Ha Hb. unfold vector_len, powi2. rewrite (fsub_nan_r a Ha), (fsub_nan_r b Hb). reflexivity. Qed.

Lemma vectors_cos_nan a b a1 b1 l : sign_ok d a = true -> sign_ok d b = true ->
  sign_ok d a1 = true -> sign_ok d b1 = true ->
  vectors_cos d a b a1 b1 (NaN d) (NaN d) (NaN d) l = NaN d.
Proof.
  intros Ha Hb Ha1 Hb1. unfold vectors_cos.
  rewrite (fsub_nan_r a Ha), (fsub_nan_r b Hb).
  rewrite (fmul_nan_r _ (sign_ok_fsub _ _ Ha Ha1)). reflexivity.
Qed.

End NanFacts.

(** ** Degenerate segments and rays *)

(** Claim C2 (amended): when every coordinate, [ray_len], [cos] and
    [sin] of the angle are numbers (not NaN), and the ray is vertical
    ([cos angle == 0]) or the segment is vertical ([x2 == x1]), the
    slopes are not finite, [y] and [x] are NaNs, and the Segment
    Intersector returns [None] when the platform's default NaN is
    negative, and otherwise an intersection whose [x], [y] and [len]
    are NaNs. *)
Theorem degenerate_segment_nan (d : bool) (f32_cos f32_sin : f32 -> f32)
    (ray_begin_x ray_begin_y ray_len ray_angle line_x1 line_y1 line_x2 line_y2 : f32)
    (Hnum : forallb is_num [ray_begin_x; ray_begin_y; ray_len; line_x1; line_y1;
                            line_x2; line_y2; f32_cos ray_angle; f32_sin ray_angle] = true)
    (Hdeg : orb (feq (f32_cos ray_angle) zero) (feq line_x2 line_x1) = true) :
  intersection_line d f32_cos f32_sin ray_begin_x ray_begin_y ray_len ray_angle
    line_x1 line_y1 line_x2 line_y2
  = if d then Ok None else Ok (Some (mkIntersection (NaN false) (NaN false) (NaN false))).
Proof.
  cbn [forallb] in Hnum. repeat rewrite andb_true_iff in Hnum.
  destruct Hnum as (Nbx & Nby & Nrl & Nx1 & Ny1 & Nx2 & Ny2 & Nc & Ns & _).
  pose proof (sign_ok_num d _ Nbx) as Sbx. pose proof (sign_ok_num d _ Nby) as Sby.
  pose proof (sign_ok_num d _ Nrl) as Srl. pose proof (sign_ok_num d _ Nx1) as Sx1.
  pose proof (sign_ok_num d _ Ny1) as Sy1. pose proof (sign_ok_num d _ Nx2) as Sx2.
  pose proof (sign_ok_num d _ Ny2) as Sy2. pose proof (sign_ok_num d _ Nc) as Sc.
  pose proof (sign_ok_num d _ Ns) as Ss.
  unfold intersection_line. cbv zeta.
  set (ex := fadd d (fmul d (f32_cos ray_angle) ray_len) ray_begin_x).
  set (ey := fadd d (fmul d (f32_sin ray_angle) ray_len) ray_begin_y).
  assert (Sex : sign_ok d ex = true) by (apply sign_ok_fadd; [apply sign_ok_fmul|]; assumption).
  assert (Sey : sign_ok d ey = true) by (apply sign_ok_fadd; [apply sign_ok_fmul|]; assumption).
  set (rtg := fdiv d (fsub d ey ray_begin_y) (fsub d ex ray_begin_x)).
  assert (Srtg : sign_ok d rtg = true) by (apply sign_ok_fdiv; apply sign_ok_fsub; assumption).
  set (rb := fsub d ray_begin_y (fmul d rtg ray_begin_x)).
  assert (Srb : sign_ok d rb = true) by (apply sign_ok_fsub; [|apply sign_ok_fmul]; assumption).
  set (ltg := fdiv d (fsub d line_y2 line_y1) (fsub d line_x2 line_x1)).
  assert (Sltg : sign_ok d ltg = true) by (apply sign_ok_fdiv; apply sign_ok_fsub; assumption).
  set (lb := fsub d line_y1 (fmul d ltg line_x1)).
  assert (Slb : sign_ok d lb = true) by (apply sign_ok_fsub; [|apply sign_ok_fmul]; assumption).
  set (tgd := fsub d ltg rtg).
  assert (Stgd : sign_ok d tgd = true) by (apply sign_ok_fsub; assumption).
  set (num := fsub d (fmul d rb ltg) (fmul d lb rtg)).
  assert (Snum : sign_ok d num = true)
    by (apply sign_ok_fsub; apply sign_ok_fmul; assumption).
  assert (NF : is_finite tgd = false /\ is_finite num = false).
  { apply orb_true_iff in Hdeg. destruct Hdeg as [Hv|Hv].
    - assert (R : is_finite rtg = false)
        by (apply div_zero_nf; apply vertical_diff; assumption).
      split; [apply nf_sub_r; exact R|apply nf_sub_r, nf_mul_r; exact R].
    - assert (L : is_finite ltg = false)
        by (apply div_zero_nf; apply sub_feq_zero; exact Hv).
      split; [apply nf_sub_l; exact L|apply nf_sub_l, nf_mul_r; exact L]. }
  destruct NF as [Ftgd Fnum].
  rewrite (feq_nf tgd Ftgd).
  rewrite (nf_div_nf d num tgd Fnum Ftgd Snum Stgd).
  replace (fdiv d (fsub d (NaN d) rb) rtg) with (NaN d) by reflexivity.
  rewrite !fgt_nan_l, !fgt_nan_r. cbn [orb].
  rewrite (vector_len_nan d _ _ Sbx Sby). rewrite fgt_nan_l.
  rewrite (vectors_cos_nan d _ _ _ _ _ Sbx Sby Sex Sey).
  destruct d; reflexivity.
Qed.

Lemma degenerate_segment_nan_witness :
  forallb is_num [zero; zero; lit 10 0; lit 5 0; lit (-5) 0; lit 5 0; lit 5 0;
    cos_ref zero; sin_ref zero] = true /\
  orb (feq (cos_ref zero) zero) (feq (lit 5 0) (lit 5 0)) = true /\
  intersection_line true cos_ref sin_ref zero zero (lit 10 0) zero
    (lit 5 0) (lit (-5) 0) (lit 5 0) (lit 5 0) = Ok None.
Proof.
  split; [vm_compute; reflexivity|split; [vm_compute; reflexivity|]].
  apply (degenerate_segment_nan true cos_ref sin_ref zero zero (lit 10 0) zero
    (lit 5 0) (lit (-5) 0) (lit 5 0) (lit 5 0)); vm_compute; reflexivity.
Defined.

(** A vertical segment (Scenario A) on a platform whose default NaN is
    positive, and a segment with a positive NaN endpoint on one whose
    default NaN is negative: both return an intersection made of NaNs. *)
Lemma degenerate_segment_returns_nan :
  intersection_line false cos_ref sin_ref zero zero (lit 10 0) zero
    (lit 5 0) (lit (-5) 0) (lit 5 0) (lit 5 0)
  = Ok (Some (mkIntersection (NaN false) (NaN false) (NaN false))) /\
  intersection_line true cos_ref sin_ref zero zero (lit 10 0) zero
    (NaN false) (lit (-5) 0) (lit 5 0) (lit 5 0)
  = Ok (Some (mkIntersection (NaN false) (NaN false) (NaN false))).
Proof. split; vm_compute; reflexivity. Qed.


(** ** Ray-fan angles *)

Lemma SFdiv_finite_not_nan (sx sy : bool) (mx my : positive) (ex ey : Z) :
  SFdiv prec emax (S754_finite sx mx ex) (S754_finite sy my ey) <> S754_nan.
Proof.
  cbn [SFdiv]. unfold SFdiv_core_binary.
  match goal with |- context [Z.div_eucl ?a ?b] =>
    assert (Ha : 0 <= a) by (destruct (_ - _ - _); try lia; apply Z.shiftl_nonneg; lia);
    pose proof (Z.div_pos a b Ha ltac:(lia)) as Hq;
    unfold Z.div in Hq; destruct (Z.div_eucl a b) as [q r]
  end.
  apply binary_round_aux_not_nan. exact Hq.
Qed.

Lemma of_sf_num (d : bool) (v : spec_float) : v <> S754_nan -> is_num (of_sf d v) = true.
Proof. destruct v; try reflexivity. intros H; contradiction. Qed.

Lemma feq_refl_num (a : f32) : is_num a = true -> feq a a = true.
Proof.
  intros Ha. unfold feq. rewrite (fcmp_num a a Ha Ha).
  destruct (fkey a) as [[k1 k2] k3]. simpl. rewrite !Z.compare_refl. reflexivity.
Qed.

Lemma two_value : two = Num (S754_finite false 8388608 (-22)).
Proof. vm_compute. reflexivity. Qed.

(** [view_angle - fov / 2] is a number for finite [view_angle] and [fov]. *)
Lemma angle_offset_num (d : bool) (view_angle fov : f32) :
  is_finite view_angle = true -> is_finite fov = true ->
  is_num (fsub d view_angle (fdiv d fov two)) = true.
Proof.
  intros Hv Hf. rewrite two_value.
  assert (Hh : exists v, fdiv d fov (Num (S754_finite false 8388608 (-22))) = Num v /\ v <> S754_nan).
  { destruct fov as [[s|s| |s m e]|s]; simpl in Hf; try discriminate.
    - eexists; split; [reflexivity|discriminate].
    - pose proof (SFdiv_finite_not_nan s false m 8388608 e (-22)) as N.
      unfold fdiv, binop. destruct (SFdiv _ _ _ _) as [| | |]; try contradiction;
        eexists; (split; [reflexivity|discriminate]). }
  destruct Hh as (v & -> & Nv).
  destruct view_angle as [[s|s| |s m e]|s]; simpl in Hv; try discriminate;
    unfold fsub, binop; apply of_sf_num;
    destruct v as [s'|s'| |s' m' e']; try contradiction; cbn [SFsub];
    try (destruct s, s'; discriminate); try discriminate.
  apply binary_normalize_not_nan.
Qed.

(** The first ray's angle [0 / rays_count * fov + angle_offset]. *)
Lemma first_ray_angle (d : bool) (rays_count : nat) (fov angle_offset : f32) :
  (0 < rays_count)%nat -> is_finite fov = true -> is_num angle_offset = true ->
  feq (ray_angle_of d rays_count fov angle_offset 0) angle_offset = true.
Proof.
  intros Hn Hf Ho. unfold ray_angle_of.
  replace (of_nat 0) with (Num (S754_zero false)) by reflexivity.
  pose proof (of_nat_pos rays_count Hn) as P.
  destruct (of_nat rays_count) as [[| | |s m e]|]; try contradiction; subst;
  destruct fov as [[s1|s1| |s1 m1 e1]|s1]; simpl in Hf; try discriminate;
  destruct angle_offset as [[s2|s2| |s2 m2 e2]|s2]; simpl in Ho; try discriminate;
  unfold fadd, fmul, fdiv, binop; cbn [SFdiv SFmul SFadd of_sf];
  repeat match goal with b : bool |- _ => destruct b end;
  try reflexivity; apply feq_refl_num; reflexivity.
Qed.

(** Claim C3 (amended): when [fn rays] returns its rays, there are
    [rays_count] of them, in the order [i = 0 .. rays_count - 1], ray [i]
    having the angle [i as f32 / rays_count as f32 * fov + (view_angle -
    fov / 2)] computed in binary32; for finite [view_angle] and [fov] and
    [rays_count > 0] the first ray's angle equals [view_angle - fov / 2].
    Nothing is claimed about the last ray being strictly below
    [view_angle + fov / 2]. *)
Theorem rays_fan_angles (d : bool) (f32_cos f32_sin : f32 -> f32) (fuel : nat)
    (view_angle fov : f32) (rays_count : nat) (ray_begin_x ray_begin_y ray_len : f32)
    (lines : list Line) (circles : list Circle) (circles_accuracy : f32) (rs : list Ray.t)
    (H : rays d f32_cos f32_sin fuel view_angle fov rays_count ray_begin_x ray_begin_y ray_len
           lines circles circles_accuracy = Some (Ok rs)) :
  length rs = rays_count /\
  map Ray.angle rs =
    map (fun i => fadd d (fmul d (fdiv d (of_nat i) (of_nat rays_count)) fov)
                    (fsub d view_angle (fdiv d fov two)))
      (seq 0 rays_count) /\
  (is_finite view_angle = true -> is_finite fov = true -> (0 < rays_count)%nat ->
   exists r, hd_error rs = Some r /\
     feq (Ray.angle r) (fsub d view_angle (fdiv d fov two)) = true).
Proof.
  unfold rays in H.
  pose proof (rays_loop_shape d f32_cos f32_sin fuel rays_count fov
    (fsub d view_angle (fdiv d fov two)) ray_begin_x ray_begin_y ray_len lines circles
    circles_accuracy (seq 0 rays_count)) as S.
  rewrite H in S. destruct S as [S1 _].
  split; [|split; [exact S1|]].
  - rewrite <- (length_map Ray.angle rs), S1, length_map, length_seq. reflexivity.
  - intros Hv Hf Hn. destruct rays_count as [|n]; [lia|].
    destruct rs as [|r rs']; simpl in S1; [discriminate|].
    injection S1 as E1 _. exists r. split; [reflexivity|]. rewrite E1.
    apply first_ray_angle; [lia|exact Hf|apply angle_offset_num; assumption].
Qed.

Lemma rays_fan_angles_witness :
  rays true cos_ref sin_ref 1 zero one 2 zero zero one [] [] one
    = Some (Ok [Ray.mk zero zero (ray_angle_of true 2 one (fsub true zero (fdiv true one two)) 0) None;
                Ray.mk zero zero (ray_angle_of true 2 one (fsub true zero (fdiv true one two)) 1) None]) /\
  length [Ray.mk zero zero (ray_angle_of true 2 one (fsub true zero (fdiv true one two)) 0) None;
          Ray.mk zero zero (ray_angle_of true 2 one (fsub true zero (fdiv true one two)) 1) None] = 2%nat.
Proof.
  assert (H : rays true cos_ref sin_ref 1 zero one 2 zero zero one [] [] one
    = Some (Ok [Ray.mk zero zero (ray_angle_of true 2 one (fsub true zero (fdiv true one two)) 0) None;
                Ray.mk zero zero (ray_angle_of true 2 one (fsub true zero (fdiv true one two)) 1) None]))
    by (vm_compute; reflexivity).
  split; [exact H|].
  exact (proj1 (rays_fan_angles true cos_ref sin_ref 1 zero one 2 zero zero one [] [] one _ H)).
Defined.

(** With [view_angle = 2^24], [fov = 1] and two rays, the second ray's
    angle is [view_angle + fov / 2], both rounded to [2^24]. *)
Lemma last_ray_not_below_fan_end :
  exists rs r,
    rays true cos_ref sin_ref 1 (lit 1 24) one 2 zero zero one [] [] one = Some (Ok rs) /\
    nth_error rs 1 = Some r /\
    flt (Ray.angle r) (fadd true (lit 1 24) (fdiv true one two)) = false /\
    feq (Ray.angle r) (fadd true (lit 1 24) (fdiv true one two)) = true.
Proof.
  eexists; eexists. split; [vm_compute; reflexivity|].
  split; [reflexivity|]. split; vm_compute; reflexivity.
Qed.

(** ** Order of the shapes *)

Lemma lex_refl (k : Z * Z * Z) : lex k k = Eq.
Proof. destruct k as [[k1 k2] k3]. simpl. rewrite !Z.compare_refl. reflexivity. Qed.

Lemma lex_cases (a b : Z * Z * Z) :
  (lex a b = Eq /\ a = b) \/ (lex a b = Lt /\ lexlt a b) \/ (lex a b = Gt /\ lexlt b a).
Proof. destruct (lex_spec a b); auto. Qed.

Lemma kmin_right_comm (a x y : Z * Z * Z) : kmin (kmin a x) y = kmin (kmin a y) x.
Proof.
  destruct a as [[a1 a2] a3], x as [[x1 x2] x3], y as [[y1 y2] y3].
  unfold kmin, lex.
  repeat match goal with |- context [Z.compare ?p ?q] => destruct (Z.compare_spec p q) end;
    first [reflexivity | exfalso; lia | f_equal; [f_equal|]; lia].
Qed.

Lemma kmin_comm (a b : Z * Z * Z) : kmin a b = kmin b a.
Proof.
  destruct a as [[a1 a2] a3], b as [[b1 b2] b3].
  unfold kmin, lex.
  repeat match goal with |- context [Z.compare ?p ?q] => destruct (Z.compare_spec p q) end;
    first [reflexivity | exfalso; lia | f_equal; [f_equal|]; lia].
Qed.

Lemma omin_right_comm (a x y : option (Z * Z * Z)) : omin (omin a x) y = omin (omin a y) x.
Proof.
  destruct a, x, y; simpl;
    first [reflexivity | rewrite kmin_right_comm; reflexivity | rewrite kmin_comm; reflexivity].
Qed.

Lemma fold_omin_perm (l l' : list (option (Z * Z * Z))) :
  Permutation l l' -> forall acc, fold_left omin l acc = fold_left omin l' acc.
Proof.
  induction 1 as [|x l l' _ IH|x y l|l l' l'' _ IH1 _ IH2]; intros acc; simpl.
  - reflexivity.
  - apply IH.
  - rewrite omin_right_comm. reflexivity.
  - rewrite IH1. apply IH2.
Qed.

Lemma okey_choose_closest (a b : option Intersection) :
  len_num a = true -> len_num b = true ->
  okey (choose_closest a b) = omin (okey a) (okey b).
Proof.
  destruct a as [i|], b as [j|]; simpl; try reflexivity.
  intros Hi Hj. unfold fgt, flt, kmin. rewrite (fcmp_num _ _ Hj Hi), lex_swap.
  destruct (lex (fkey (len i)) (fkey (len j))); reflexivity.
Qed.

Lemma len_num_choose_closest (a b : option Intersection) :
  len_num a = true -> len_num b = true -> len_num (choose_closest a b) = true.
Proof. destruct a, b; simpl; auto. destruct (fgt _ _); auto. Qed.

Lemma okey_fold (l : list (option Intersection)) : forall acc,
  len_num acc = true -> forallb len_num l = true ->
  okey (fold_left choose_closest l acc) = fold_left omin (map okey l) (okey acc)
  /\ len_num (fold_left choose_closest l acc) = true.
Proof.
  induction l as [|o l IH]; intros acc Ha Hl; simpl; [auto|].
  simpl in Hl. apply andb_true_iff in Hl as [Ho Hl].
  rewrite <- okey_choose_closest by assumption.
  apply IH; [apply len_num_choose_closest|]; assumption.
Qed.

Lemma opt_all_perm {A : Type} (l l' : list (option A)) :
  Permutation l l' ->
  match opt_all l, opt_all l' with
  | Some rs, Some rs' => Permutation rs rs'
  | None, None => True
  | _, _ => False
  end.
Proof.
  induction 1 as [|x l l' _ IH|x y l|l l' l'' _ IH1 _ IH2]; simpl.
  - constructor.
  - destruct x as [a|]; [|exact I]. simpl.
    destruct (opt_all l), (opt_all l'); simpl; try contradiction; auto.
  - destruct x as [a|], y as [b|]; simpl; try exact I.
    destruct (opt_all l); simpl; [apply perm_swap|exact I].
  - destruct (opt_all l), (opt_all l'), (opt_all l''); try contradiction; auto.
    eapply Permutation_trans; eassumption.
Qed.

Lemma opt_all_forallb {A : Type} (P : A -> bool) (l : list (option A)) : forall rs,
  opt_all l = Some rs ->
  forallb (fun o => match o with Some a => P a | None => true end) l = true ->
  forallb P rs = true.
Proof.
  induction l as [|[a|] l IH]; simpl; intros rs E H; try discriminate.
  - injection E as <-. reflexivity.
  - apply andb_true_iff in H as [Ha H].
    destruct (opt_all l) as [rs'|]; simpl in E; [|discriminate].
    injection E as <-. simpl. rewrite Ha. apply IH; auto.
Qed.

Lemma forallb_map' {A B : Type} (P : B -> bool) (f : A -> B) (l : list A) :
  forallb P (map f l) = forallb (fun a => P (f a)) l.
Proof. induction l as [|a l IH]; simpl; [reflexivity|]. rewrite IH. reflexivity. Qed.

Lemma forallb_perm {A : Type} (P : A -> bool) (l l' : list A) :
  Permutation l l' -> forallb P l = forallb P l'.
Proof.
  induction 1 as [|a l l' _ IH|a b l|l l' l'' _ IH1 _ IH2]; simpl.
  - reflexivity.
  - rewrite IH. reflexivity.
  - rewrite !andb_assoc, (andb_comm (P b)). reflexivity.
  - congruence.
Qed.

(** Claim C5 (amended): permuting the segments and the circles does
    not change whether [fn intersection] returns, whether it finds an
    intersection, nor the [len] of the one it returns (up to [==]),
    provided that no candidate intersection has a NaN [len].  The hit
    point itself can change with the order when two candidates tie. *)
Theorem shape_order_len (d : bool) (f32_cos f32_sin : f32 -> f32) (fuel : nat)
    (ray_begin_x ray_begin_y ray_len ray_angle accuracy : f32)
    (lines lines' : list Line) (circles circles' : list Circle)
    (Pl : Permutation lines lines') (Pc : Permutation circles circles')
    (Hl : forallb (fun l => len_num (line_hit d f32_cos f32_sin ray_begin_x ray_begin_y ray_len
                                      ray_angle l)) lines = true)
    (Hc : forallb (fun c => match circle_hit d f32_cos f32_sin fuel ray_begin_x ray_begin_y
                                    ray_len ray_angle accuracy c with
                            | Some o => len_num o
                            | None => true
                            end) circles = true) :
  match intersection d f32_cos f32_sin fuel ray_begin_x ray_begin_y ray_len ray_angle
          lines circles accuracy,
        intersection d f32_cos f32_sin fuel ray_begin_x ray_begin_y ray_len ray_angle
          lines' circles' accuracy with
  | None, None => True
  | Some (Ok None), Some (Ok None) => True
  | Some (Ok (Some i)), Some (Ok (Some i')) => feq (len i) (len i') = true
  | _, _ => False
  end.
Proof.
  rewrite !intersection_eq.
  set (lh := line_hit d f32_cos f32_sin ray_begin_x ray_begin_y ray_len ray_angle) in *.
  set (ch := circle_hit d f32_cos f32_sin fuel ray_begin_x ray_begin_y ray_len ray_angle accuracy) in *.
  assert (HL : forallb len_num (map lh lines) = true)
    by (rewrite forallb_map'; exact Hl).
  assert (HL' : forallb len_num (map lh lines') = true)
    by (rewrite <- (forallb_perm _ _ _ (Permutation_map lh Pl)); exact HL).
  pose proof (opt_all_perm _ _ (Permutation_map ch Pc)) as PO.
  destruct (opt_all (map ch circles)) as [rs|] eqn:E,
           (opt_all (map ch circles')) as [rs'|] eqn:E'; try contradiction; simpl; [|exact I].
  assert (HR : forallb len_num rs = true).
  { apply (opt_all_forallb len_num (map ch circles) rs E). rewrite forallb_map'. exact Hc. }
  assert (HR' : forallb len_num rs' = true)
    by (rewrite <- (forallb_perm _ _ _ PO); exact HR).
  destruct (okey_fold _ None eq_refl HL) as [K1 N1].
  destruct (okey_fold _ None eq_refl HL') as [K1' N1'].
  destruct (okey_fold _ None eq_refl HR) as [K2 N2].
  destruct (okey_fold _ None eq_refl HR') as [K2' N2'].
  assert (K : okey (choose_closest (fold_left choose_closest (map lh lines) None)
                                   (fold_left choose_closest rs None))
            = okey (choose_closest (fold_left choose_closest (map lh lines') None)
                                   (fold_left choose_closest rs' None))).
  { rewrite !okey_choose_closest by assumption.
    rewrite K1, K1', K2, K2'.
    rewrite (fold_omin_perm _ _ (Permutation_map _ (Permutation_map lh Pl))).
    rewrite (fold_omin_perm _ _ (Permutation_map okey PO)). reflexivity. }
  pose proof (len_num_choose_closest _ _ N1 N2) as M.
  pose proof (len_num_choose_closest _ _ N1' N2') as M'.
  revert K M M'.
  destruct (choose_closest _ (fold_left choose_closest rs None)) as [i|],
           (choose_closest _ (fold_left choose_closest rs' None)) as [i'|];
    simpl; intros K M M'; try discriminate; [|exact I].
  injection K as K. unfold feq.
  rewrite (fcmp_num _ _ M M'), K, lex_refl. reflexivity.
Qed.

Lemma shape_order_len_witness :
  Permutation (@nil Line) [] /\
  Permutation [(lit 3 0, zero, lit 3 (-7)); (lit 12582913 (-22), lit (-5) (-9), lit 13 (-9))] [(lit 12582913 (-22), lit (-5) (-9), lit 13 (-9)); (lit 3 0, zero, lit 3 (-7))] /\
  forallb (fun c => match circle_hit true cos_ref sin_ref 10 one zero (lit 10 0) zero (lit 1 (-30)) c with
                    | Some o => len_num o
                    | None => true
                    end) [(lit 3 0, zero, lit 3 (-7)); (lit 12582913 (-22), lit (-5) (-9), lit 13 (-9))] = true /\
  match intersection true cos_ref sin_ref 10 one zero (lit 10 0) zero [] [(lit 3 0, zero, lit 3 (-7)); (lit 12582913 (-22), lit (-5) (-9), lit 13 (-9))] (lit 1 (-30)),
        intersection true cos_ref sin_ref 10 one zero (lit 10 0) zero [] [(lit 12582913 (-22), lit (-5) (-9), lit 13 (-9)); (lit 3 0, zero, lit 3 (-7))] (lit 1 (-30)) with
  | None, None => True
  | Some (Ok None), Some (Ok None) => True
  | Some (Ok (Some i)), Some (Ok (Some i')) => feq (len i) (len i') = true
  | _, _ => False
  end.
Proof.
  assert (Pc : Permutation [(lit 3 0, zero, lit 3 (-7)); (lit 12582913 (-22), lit (-5) (-9), lit 13 (-9))] [(lit 12582913 (-22), lit (-5) (-9), lit 13 (-9)); (lit 3 0, zero, lit 3 (-7))]) by apply perm_swap.
  assert (Hc : forallb (fun c => match circle_hit true cos_ref sin_ref 10 one zero (lit 10 0) zero
                                         (lit 1 (-30)) c with
                                 | Some o => len_num o
                                 | None => true
                                 end) [(lit 3 0, zero, lit 3 (-7)); (lit 12582913 (-22), lit (-5) (-9), lit 13 (-9))] = true)
    by (vm_compute; reflexivity).
  split; [constructor|split; [exact Pc|split; [exact Hc|]]].
  exact (shape_order_len true cos_ref sin_ref 10 one zero (lit 10 0) zero (lit 1 (-30))
    [] [] [(lit 3 0, zero, lit 3 (-7)); (lit 12582913 (-22), lit (-5) (-9), lit 13 (-9))] [(lit 12582913 (-22), lit (-5) (-9), lit 13 (-9)); (lit 3 0, zero, lit 3 (-7))] (perm_nil Line) Pc eq_refl Hc).
Defined.

(** Two circles whose refined hits tie on [len] but not on the point:
    the hit point returned depends on the order of the circles. *)
Lemma circle_order_changes_hit :
  intersection true cos_ref sin_ref 10 one zero (lit 10 0) zero [] [(lit 3 0, zero, lit 3 (-7)); (lit 12582913 (-22), lit (-5) (-9), lit 13 (-9))] (lit 1 (-30))
    = Some (Ok (Some (mkIntersection (Num (S754_finite false 12484608 (-22))) zero
                        (Num (S754_finite false 16580608 (-23)))))) /\
  intersection true cos_ref sin_ref 10 one zero (lit 10 0) zero [] [(lit 12582913 (-22), lit (-5) (-9), lit 13 (-9)); (lit 3 0, zero, lit 3 (-7))] (lit 1 (-30))
    = Some (Ok (Some (mkIntersection (Num (S754_finite false 12484609 (-22))) zero
                        (Num (S754_finite false 16580608 (-23)))))) /\
  feq (Num (S754_finite false 12484608 (-22))) (Num (S754_finite false 12484609 (-22))) = false.
Proof. split; [|split]; vm_compute; reflexivity. Qed.

(** ** The range of returned lengths *)

Lemma fexp_value (x : Z) : fexp prec emax x = Z.max (x - 24) (-149).
Proof. reflexivity. Qed.

Lemma Zdigits2_bounds (m : Z) : 0 < m -> 2 ^ (Zdigits2 m - 1) <= m < 2 ^ Zdigits2 m /\ 1 <= Zdigits2 m.
Proof.
  intros Hm. destruct m as [|p|p]; try lia.
  rewrite Zdigits2_log2. replace (Z.log2 (Zpos p) + 1 - 1) with (Z.log2 (Zpos p)) by lia.
  pose proof (Z.log2_spec (Zpos p) Hm) as [H1 H2]. pose proof (Z.log2_nonneg (Zpos p)).
  rewrite <- Z.add_1_r in H2. lia.
Qed.

Lemma Zdigits2_of_bounds (m k : Z) : 0 <= k -> 2 ^ k <= m < 2 ^ (k + 1) -> Zdigits2 m = k + 1.
Proof.
  intros Hk Hb. assert (Hm : 0 < m) by (pose proof (Z.pow_pos_nonneg 2 k); lia).
  destruct m as [|p|p]; try lia. rewrite Zdigits2_log2.
  rewrite (Z.log2_unique (Zpos p) k); [reflexivity|lia|rewrite <- Z.add_1_r; lia].
Qed.

Lemma round_nearest_even_le (m : Z) (l : location) : round_nearest_even m l <= m + 1.
Proof. destruct l as [|[]]; simpl; try lia. destruct (Z.even m); lia. Qed.

(** Rounding a mantissa that has enough digits for its exponent gives a
    canonical result. *)
Lemma binary_round_aux_canon (sx : bool) (m e : Z) (l : location) :
  0 < m -> e <= fexp prec emax (Zdigits2 m + e) ->
  match binary_round_aux prec emax sx m e l with
  | S754_finite _ m2 e2 => canon (Zpos m2) e2
  | _ => True
  end.
Proof.
  intros Hm He. unfold binary_round_aux.
  pose proof (Zdigits2_bounds m Hm) as [[B1 B2] B3].
  set (D := Zdigits2 m) in *.
  rewrite fexp_value in He.
  (* first shift *)
  assert (S1 : exists m1 e1, shr_fexp prec emax m e l = (fst (shr_fexp prec emax m e l), e1) /\
     shr_m (fst (shr_fexp prec emax m e l)) = m1 /\ m1 < 2 ^ 24 /\ 0 <= m1 /\ -149 <= e1 /\
     (-149 < e1 -> 2 ^ 23 <= m1)).
  { unfold shr_fexp.
    destruct (shr_m_shr (shr_record_of_loc m l) e (fexp prec emax (Zdigits2 m + e) - e))
      as [E1 E2]; [rewrite shr_record_of_loc_m; lia|].
    rewrite shr_record_of_loc_m in E1. fold D in E1, E2. rewrite fexp_value in E1, E2.
    set (k := Z.max (D + e - 24) (-149) - e) in *.
    assert (Hk : 0 <= k) by (unfold k; lia).
    replace (Z.max 0 k) with k in E1, E2 by lia.
    rewrite Z.shiftr_div_pow2 in E1 by lia.
    exists (m / 2 ^ k), (e + k). split; [|split; [exact E1|]].
    { destruct (shr _ _ _) as [a b]. simpl in E2 |- *. rewrite E2. reflexivity. }
    assert (P : 0 < 2 ^ k) by (apply Z.pow_pos_nonneg; lia).
    split; [|split; [apply Z.div_pos; lia|split; [unfold k; lia|]]].
    - apply Z.div_lt_upper_bound; [lia|].
      rewrite <- Z.pow_add_r by lia.
      apply Z.lt_le_trans with (2 ^ D); [lia|apply Z.pow_le_mono_r; unfold k; lia].
    - intros Hn. apply Z.div_le_lower_bound; [lia|].
      rewrite <- Z.pow_add_r by lia.
      apply Z.le_trans with (2 ^ (D - 1)); [apply Z.pow_le_mono_r; unfold k in *; lia|lia]. }
  destruct S1 as (m1 & e1 & S1e & S1m & U1 & N1 & L1 & L1').
  rewrite S1e. rewrite S1m.
  set (r1 := round_nearest_even m1 _).
  assert (R1 : m1 <= r1 <= m1 + 1)
    by (split; [apply round_nearest_even_ge|apply round_nearest_even_le]).
  clearbody r1.
  unfold shr_fexp.
  destruct (Z.eq_dec r1 0) as [Z0'|NZ].
  { rewrite Z0'. cbn [shr_record_of_loc].
    match goal with |- context [shr ?r ?a ?b] =>
      destruct (shr_m_shr r a b) as [E _]; [simpl; lia|]; destruct (shr r a b) as [mrs2 e2] end.
    simpl in E. rewrite Z.shiftr_0_l in E. rewrite E. exact I. }
  destruct (Z.eq_dec r1 (2 ^ 24)) as [Top|NTop].
  - (* overflow of the mantissa: one more shift *)
    rewrite Top.
    replace (Zdigits2 (2 ^ 24)) with 25 by reflexivity.
    rewrite fexp_value. replace (Z.max (25 + e1 - 24) (-149) - e1) with 1 by lia.
    cbn -[Z.pow]. replace (2 ^ 24) with 16777216 by reflexivity. cbn.
    destruct (e1 + 1 <=? _); [|exact I].
    right. split; [lia|]. cbn. lia.
  - assert (Hr : 0 < r1 < 2 ^ 24) by lia.
    pose proof (Zdigits2_bounds r1 ltac:(lia)) as [[C1 C2] C3].
    assert (Dr : Zdigits2 r1 <= 24).
    { destruct (Z.le_gt_cases (Zdigits2 r1) 24) as [|G]; [assumption|].
      assert (2 ^ 24 <= 2 ^ (Zdigits2 r1 - 1)) by (apply Z.pow_le_mono_r; lia). lia. }
    rewrite fexp_value. replace (Z.max (Zdigits2 r1 + e1 - 24) (-149) - e1) with
      (- (e1 - Z.max (Zdigits2 r1 + e1 - 24) (-149))) by lia.
    destruct (e1 - Z.max (Zdigits2 r1 + e1 - 24) (-149)) as [|p|p] eqn:Ep; try lia;
    cbn [shr shr_record_of_loc Z.opp shr_m fst snd];
    (destruct r1 as [|p1|p1]; [lia| |lia]);
    (destruct (e1 <=? _); [|exact I]);
    (destruct (Z.eq_dec e1 (-149)); [left; lia|right; split; [lia|]; specialize (L1' ltac:(lia)); lia]).
Qed.

Lemma binary_round_aux_sign (sx : bool) (m e : Z) (l : location) :
  0 <= m ->
  match binary_round_aux prec emax sx m e l with
  | S754_zero s | S754_infinity s | S754_finite s _ _ => s = sx
  | S754_nan => False
  end.
Proof.
  intros Hm. unfold binary_round_aux.
  pose proof (shr_fexp_nonneg m e l Hm) as H1.
  destruct (shr_fexp prec emax m e l) as [mrs1 e1]. simpl in H1.
  pose proof (round_nearest_even_ge (shr_m mrs1) (loc_of_shr_record mrs1)) as H2.
  pose proof (shr_fexp_nonneg (round_nearest_even (shr_m mrs1) (loc_of_shr_record mrs1)) e1 loc_Exact
    ltac:(lia)) as H3.
  destruct (shr_fexp prec emax _ e1 loc_Exact) as [mrs2 e2]. simpl in H3.
  destruct (shr_m mrs2); try lia; try reflexivity.
  destruct (e2 <=? emax - prec); reflexivity.
Qed.

(** The square root of a positive finite value is a positive canonical
    value (or [+inf]). *)
Lemma SFsqrt_pos_canon (m : positive) (e : Z) :
  match SFsqrt prec emax (S754_finite false m e) with
  | S754_finite s m2 e2 => s = false /\ canon (Zpos m2) e2
  | S754_zero s | S754_infinity s => s = false
  | S754_nan => False
  end.
Proof.
  cbn [SFsqrt]. unfold SFsqrt_core_binary.
  pose proof (Zdigits2_bounds (Zpos m) ltac:(lia)) as [[B1 B2] B3].
  set (d := Zdigits2 (Zpos m)) in *.
  set (e' := Z.min (fexp prec emax (Z.div2 (d + e + 1))) (Z.div2 e)).
  assert (Hs : 0 <= e - 2 * e').
  { unfold e'. rewrite Z.div2_div. pose proof (Z.mul_div_le e 2 ltac:(lia)). lia. }
  assert (Hm' : exists m', (match e - 2 * e' with
                            | Zpos _ => Z.shiftl (Zpos m) (e - 2 * e')
                            | Z0 => Zpos m
                            | Zneg _ => 0 end) = m' /\ m' = Zpos m * 2 ^ (e - 2 * e')).
  { destruct (e - 2 * e') as [|p|p] eqn:E; eexists; (split; [reflexivity|]); try lia.
    rewrite Z.shiftl_mul_pow2 by lia. reflexivity. }
  destruct Hm' as (m' & -> & Em').
  destruct (Z.sqrtrem m') as [q r] eqn:Eq.
  assert (Hq : q = Z.sqrt m') by (pose proof (Z.sqrtrem_sqrt m') as S; rewrite Eq in S; exact S).
  set (t := (d - 1 + (e - 2 * e')) / 2).
  assert (Ht : 0 <= t) by (unfold t; apply Z.div_pos; lia).
  assert (P1 : 2 ^ (d - 1 + (e - 2 * e')) <= m').
  { rewrite Em', Z.pow_add_r by lia.
    apply Z.mul_le_mono_nonneg_r; [apply Z.pow_nonneg; lia|lia]. }
  assert (P2 : 2 ^ t * 2 ^ t <= 2 ^ (d - 1 + (e - 2 * e'))).
  { rewrite <- Z.pow_add_r by lia. apply Z.pow_le_mono_r; [lia|].
    unfold t. pose proof (Z.mul_div_le (d - 1 + (e - 2 * e')) 2 ltac:(lia)). lia. }
  assert (P3 : 2 ^ t <= q).
  { rewrite Hq, <- (Z.sqrt_square (2 ^ t)) by (apply Z.pow_nonneg; lia).
    apply Z.sqrt_le_mono. lia. }
  assert (Hq0 : 0 < q) by (pose proof (Z.pow_pos_nonneg 2 t); lia).
  pose proof (Zdigits2_bounds q Hq0) as [[Q1 Q2] Q3].
  assert (Dq : t < Zdigits2 q).
  { apply (Z.pow_lt_mono_r_iff 2); lia. }
  assert (Hc : e' <= fexp prec emax (Zdigits2 q + e')).
  { rewrite !fexp_value. unfold e' at 1.
    rewrite fexp_value, !Z.div2_div.
    assert (T : t + 1 + e' = (d + e + 1) / 2).
    { unfold t. replace (d - 1 + (e - 2 * e')) with ((d + e + 1) + (- (1 + e')) * 2) by ring.
      rewrite Z.div_add by lia. ring. }
    lia. }
  pose proof (binary_round_aux_canon false q e'
    (if r =? 0 then loc_Exact else loc_Inexact (if r <=? q then Lt else Gt)) Hq0 Hc) as C.
  pose proof (binary_round_aux_sign false q e'
    (if r =? 0 then loc_Exact else loc_Inexact (if r <=? q then Lt else Gt)) ltac:(lia)) as S.
  destruct (binary_round_aux _ _ _ _ _ _); auto.
Qed.

Lemma powi2_shape (d : bool) (a : f32) : nonneg_or_nan (powi2 d a).
Proof.
  destruct a as [[s|s| |s m e]|s]; unfold powi2, fmul, binop; cbn [SFmul of_sf nonneg_or_nan];
    try (destruct s; reflexivity); try exact I.
  rewrite xorb_nilpotent.
  pose proof (binary_round_aux_sign false (Zpos (m * m)) (e + e) loc_Exact ltac:(lia)) as S.
  destruct (binary_round_aux _ _ _ _ _ _); simpl; auto.
Qed.

Lemma round_false_shape (d : bool) (p : positive) (ez : Z) :
  nonneg_or_nan (of_sf d (binary_round_aux prec emax false (Zpos p) ez loc_Exact)).
Proof.
  pose proof (binary_round_aux_sign false (Zpos p) ez loc_Exact ltac:(lia)) as S.
  destruct (binary_round_aux _ _ _ _ _ _); cbn [of_sf nonneg_or_nan nonneg_sf]; auto.
Qed.

Lemma normalize_pos_sf (p : positive) (ez : Z) :
  nonneg_sf (binary_normalize prec emax (Zpos p) ez false).
Proof.
  unfold binary_normalize, binary_round.
  destruct (shl_align _ _ _) as [mz ez'].
  pose proof (binary_round_aux_sign false (Zpos mz) ez' loc_Exact ltac:(lia)) as S.
  destruct (binary_round_aux _ _ _ _ _ _); cbn [nonneg_sf]; auto.
Qed.

Lemma normalize_pos_shape (d : bool) (p : positive) (ez : Z) :
  nonneg_or_nan (of_sf d (binary_normalize prec emax (Zpos p) ez false)).
Proof.
  unfold binary_normalize, binary_round.
  destruct (shl_align _ _ _) as [mz ez'].
  apply round_false_shape.
Qed.

Lemma fadd_shape (d : bool) (a b : f32) :
  nonneg_or_nan a -> nonneg_or_nan b -> nonneg_or_nan (fadd d a b).
Proof.
  destruct a as [[s|s| |s m e]|s]; simpl; try contradiction; try (intros; exact I);
  destruct b as [[s'|s'| |s' m' e']|s']; simpl; try contradiction; try (intros; exact I);
  intros Ha Hb; subst; try reflexivity.
  cbn [cond_Zopp Z.add]. apply normalize_pos_shape.
Qed.

Lemma vector_len_shape (d : bool) (x1 y1 x2 y2 : f32) :
  match vector_len d x1 y1 x2 y2 with NaN _ => True | Num v => sqrt_shape v end.
Proof.
  unfold vector_len.
  pose proof (fadd_shape d _ _ (powi2_shape d (fsub d x1 x2)) (powi2_shape d (fsub d y1 y2))) as H.
  destruct (fadd d _ _) as [[s|s| |s m e]|s]; cbn [fsqrt nonneg_or_nan nonneg_sf] in H |- *;
    try contradiction; try exact I; subst;
    try (cbn [SFsqrt of_sf sqrt_shape]; reflexivity).
  pose proof (SFsqrt_pos_canon m e) as C.
  destruct (SFsqrt _ _ _); cbn [of_sf sqrt_shape] in C |- *; auto.
Qed.

Lemma valid_canon (s : bool) (m : positive) (e : Z) :
  valid_binary prec emax (S754_finite s m e) = true -> canon (Zpos m) e.
Proof.
  cbn [valid_binary]. unfold bounded, canonical_mantissa.
  intros H. apply andb_true_iff in H as [H _]. apply Z.eqb_eq in H.
  rewrite fexp_value in H.
  change (Zpos (digits2_pos m)) with (Zdigits2 (Zpos m)) in H.
  pose proof (Zdigits2_bounds (Zpos m) ltac:(lia)) as [[B1 B2] B3].
  unfold canon.
  destruct (Z.eq_dec e (-149)) as [E|E].
  - left. split; [exact E|]. apply Z.lt_le_trans with (2 ^ Zdigits2 (Zpos m)); [lia|].
    apply Z.pow_le_mono_r; lia.
  - right. split; [lia|].
    replace (Zdigits2 (Zpos m)) with 24 in * by lia. split; [exact B1|exact B2].
Qed.

Lemma shl_align_value (m : positive) (e ez : Z) :
  ez <= e -> Zpos (fst (shl_align m e ez)) = Zpos m * 2 ^ (e - ez).
Proof.
  intros H. unfold shl_align.
  destruct (ez - e) as [|p|p] eqn:E; cbn [fst]; try lia.
  - replace (e - ez) with 0 by lia. rewrite Z.pow_0_r. lia.
  - replace (e - ez) with (Zpos p) by lia.
    clear E H. induction p as [|p IH] using Pos.peano_ind.
    + simpl. lia.
    + rewrite Pos.iter_succ, Pos2Z.inj_succ, Z.pow_succ_r by lia.
      change (Zpos (xO (Pos.iter xO m p))) with (2 * Zpos (Pos.iter xO m p)).
      rewrite IH. ring.
Qed.

(** [a - b] for positive canonical [a], [b] with [a] not below [b] in
    the order of [SFcompare]. *)
Lemma sub_canon_nonneg (m1 m2 : positive) (e1 e2 : Z) :
  canon (Zpos m1) e1 -> canon (Zpos m2) e2 ->
  lex (key (S754_finite false m1 e1)) (key (S754_finite false m2 e2)) <> Lt ->
  nonneg_sf (SFsub prec emax (S754_finite false m1 e1) (S754_finite false m2 e2)).
Proof.
  intros C1 C2 L. cbn [SFsub cond_Zopp].
  assert (D : 0 <= Zpos (fst (shl_align m1 e1 (Z.min e1 e2))) - Zpos (fst (shl_align m2 e2 (Z.min e1 e2)))).
  { rewrite !shl_align_value by lia.
    cbn [key lex] in L. rewrite Z.compare_refl in L. revert L.
    destruct (Z.compare_spec e1 e2) as [E|E|E]; intros L; [|contradiction|].
    - subst e2. rewrite Z.min_id, Z.sub_diag, Z.pow_0_r, !Z.mul_1_r. revert L.
      destruct (Z.compare_spec (Zpos m1) (Zpos m2)); intros L; [lia|contradiction|lia].
    - rewrite Z.min_r by lia. rewrite Z.sub_diag, Z.mul_1_r.
      assert (P : 2 <= 2 ^ (e1 - e2)).
      { replace 2 with (2 ^ 1) at 1 by reflexivity. apply Z.pow_le_mono_r; lia. }
      unfold canon in C1, C2. nia. }
  destruct (_ - _) as [|p|p] eqn:E; [reflexivity| |lia].
  apply normalize_pos_sf.
Qed.

Lemma nonneg_sf_of_sf (d : bool) (v : spec_float) : nonneg_sf v -> nonneg_or_nan (of_sf d v).
Proof. destruct v; cbn [nonneg_sf of_sf nonneg_or_nan]; auto. Qed.

Lemma sub_from_sqrt_shape (d : bool) (u v : spec_float) :
  sqrt_shape u -> valid_binary prec emax v = true -> v <> S754_nan ->
  lex (key u) (key v) <> Lt -> nonneg_or_nan (of_sf d (SFsub prec emax u v)).
Proof.
  intros Hu Hv Hn L.
  destruct u as [s|s| |s m e]; cbn [sqrt_shape] in Hu;
    [subst s|subst s|contradiction|destruct Hu as [-> Cu]];
    (destruct v as [s'|s'| |s' m' e']; [destruct s'|destruct s'|congruence|destruct s']);
    try (exfalso; apply L; reflexivity).
  all: lazymatch goal with
  | |- nonneg_or_nan (of_sf _ (SFsub _ _ (S754_finite false _ _) (S754_finite false _ _))) =>
      apply nonneg_sf_of_sf, sub_canon_nonneg; [exact Cu|apply (valid_canon false); exact Hv|exact L]
  | |- nonneg_or_nan (of_sf _ (SFsub _ _ (S754_finite false _ _) (S754_finite true _ _))) =>
      cbn [SFsub SFopp negb SFadd cond_Zopp Z.add]; apply normalize_pos_shape
  | |- _ => cbn [SFsub SFopp negb SFadd Bool.eqb of_sf nonneg_or_nan nonneg_sf]; first [exact I | reflexivity]
  end.
Qed.

Lemma sub_to_sqrt_shape (d : bool) (u v : spec_float) :
  sqrt_shape v -> valid_binary prec emax u = true -> u <> S754_nan ->
  lex (key v) (key u) = Lt -> nonneg_or_nan (of_sf d (SFsub prec emax u v)).
Proof.
  intros Hv Hu Hn L.
  assert (L' : lex (key u) (key v) <> Lt) by (rewrite lex_swap, L; discriminate).
  destruct v as [s|s| |s m e]; cbn [sqrt_shape] in Hv;
    [subst s|subst s|contradiction|destruct Hv as [-> Cv]];
    (destruct u as [s'|s'| |s' m' e']; [destruct s'|destruct s'|congruence|destruct s']);
    try (exfalso; apply L'; reflexivity); try (exfalso; revert L; cbn; discriminate).
  all: lazymatch goal with
  | |- nonneg_or_nan (of_sf _ (SFsub _ _ (S754_finite false _ _) (S754_finite false _ _))) =>
      apply nonneg_sf_of_sf, sub_canon_nonneg; [apply (valid_canon false); exact Hu|exact Cv|exact L']
  | |- _ => cbn [SFsub SFopp negb SFadd Bool.eqb of_sf nonneg_or_nan nonneg_sf]; first [exact I | reflexivity]
  end.
Qed.

Lemma len_to_circle_shape (d : bool) (bx by' cx cy r : f32) :
  valid_f32 r = true -> nonneg_or_nan (len_to_circle_at d bx by' cx cy r).
Proof.
  intros Hr. unfold len_to_circle_at.
  pose proof (vector_len_shape d bx by' cx cy) as V.
  destruct (vector_len d bx by' cx cy) as [u|s]; [|exact I].
  destruct r as [w|s]; [|exact I].
  assert (Hu : u <> S754_nan) by (intros ->; exact V).
  destruct (SFcompare u w) as [c|] eqn:C.
  - assert (Hw : w <> S754_nan) by (intros ->; destruct u; discriminate).
    rewrite SFcompare_key in C by assumption. injection C as C.
    unfold flt; cbn [fcmp]. rewrite SFcompare_key by assumption. rewrite C.
    change (fsub d (Num ?a) (Num ?b)) with (of_sf d (SFsub prec emax a b)).
    destruct c.
    + apply sub_from_sqrt_shape; auto. rewrite C. discriminate.
    + apply sub_to_sqrt_shape; auto.
    + apply sub_from_sqrt_shape; auto. rewrite C. discriminate.
  - unfold flt; cbn [fcmp]. rewrite C.
    change (fsub d (Num ?a) (Num ?b)) with (of_sf d (SFsub prec emax a b)).
    destruct w; try (rewrite SFcompare_key in C by (assumption || discriminate); discriminate).
    destruct u; try contradiction; exact I.
Qed.

Lemma nonneg_not_neg (a : f32) : nonneg_or_nan a -> flt a zero = false.
Proof. destruct a as [[s|s| |s m e]|s]; cbn; intros H; try subst; auto; contradiction. Qed.

Lemma sqrt_shape_nonneg (v : spec_float) : sqrt_shape v -> nonneg_sf v.
Proof. destruct v; cbn; tauto. Qed.

Lemma vector_len_nonneg (d : bool) (x1 y1 x2 y2 : f32) :
  nonneg_or_nan (vector_len d x1 y1 x2 y2).
Proof.
  pose proof (vector_len_shape d x1 y1 x2 y2) as V.
  destruct (vector_len d x1 y1 x2 y2); [apply sqrt_shape_nonneg|]; auto.
Qed.
Section LenRange.

Variable d : bool.
Variables f32_cos f32_sin : f32 -> f32.

Lemma choose_closest_range (rl : f32) (a b : option Intersection) :
  len_in_range rl a = true -> len_in_range rl b = true -> len_in_range rl (choose_closest a b) = true.
Proof.
  intros Ha Hb. destruct a as [a|], b as [b|]; cbn [choose_closest]; auto.
  destruct (fgt _ _); auto.
Qed.

Lemma intersection_line_range (bx by' rl ang x1 y1 x2 y2 : f32) (o : option Intersection) :
  intersection_line d f32_cos f32_sin bx by' rl ang x1 y1 x2 y2 = Ok o -> len_in_range rl o = true.
Proof.
  unfold intersection_line. cbv zeta.
  repeat match goal with |- context [if ?b then _ else _] => let E := fresh "E" in destruct b eqn:E end;
    intros H; injection H as <-; try reflexivity.
  cbn [len_in_range len]. rewrite nonneg_not_neg by apply vector_len_nonneg.
  match goal with H : fgt _ rl = false |- _ => rewrite H end. reflexivity.
Qed.

Lemma intersection_lines_loop_range (bx by' rl ang : f32) (lines : list Line) :
  forall acc o, len_in_range rl acc = true ->
  intersection_lines_loop d f32_cos f32_sin bx by' rl ang acc lines = Ok o -> len_in_range rl o = true.
Proof.
  induction lines as [|[[[x1 y1] x2] y2] rest IH]; intros acc o Hacc H; cbn [intersection_lines_loop] in H.
  - injection H as <-. exact Hacc.
  - destruct (intersection_line _ _ _ _ _ _ _ _ _ _ _) as [h|e] eqn:E; [|discriminate].
    apply (IH _ _ (choose_closest_range rl acc h Hacc (intersection_line_range _ _ _ _ _ _ _ _ _ E)) H).
Qed.

Lemma intersection_circle_range (fuel : nat) : forall bx by' rl ang cx cy r acc len0 o,
  valid_f32 r = true -> nonneg_or_nan len0 ->
  intersection_circle d f32_cos f32_sin fuel bx by' rl ang cx cy r acc len0 = Some (Ok o) ->
  len_in_range rl o = true.
Proof.
  induction fuel as [|fuel IH]; intros bx by' rl ang cx cy r acc len0 o Hr Hl H;
    cbn [intersection_circle] in H; [discriminate|].
  destruct (fgt len0 rl) eqn:G; [injection H as <-; reflexivity|].
  destruct (fle _ acc); [injection H as <-|].
  - cbn [len_in_range len]. rewrite nonneg_not_neg, G by exact Hl. reflexivity.
  - eapply IH; [exact Hr| |exact H].
    apply fadd_shape; [exact Hl|apply len_to_circle_shape; exact Hr].
Qed.

Lemma intersection_circles_loop_range (fuel : nat) (bx by' rl ang accuracy : f32) (circles : list Circle) :
  forallb (fun c => let '(_, _, r) := c in valid_f32 r) circles = true ->
  forall acc o, len_in_range rl acc = true ->
  intersection_circles_loop d f32_cos f32_sin fuel bx by' rl ang accuracy acc circles = Some (Ok o) ->
  len_in_range rl o = true.
Proof.
  induction circles as [|[[cx cy] r] rest IH]; intros Hc acc o Hacc H; cbn [intersection_circles_loop] in H.
  - injection H as <-. exact Hacc.
  - cbn [forallb] in Hc. apply andb_prop in Hc as [Hr Hc].
    destruct (intersection_circle _ _ _ _ _ _ _ _ _ _ _ _ _) as [[h|e]|] eqn:E; try discriminate.
    refine (IH Hc _ _ (choose_closest_range rl acc h Hacc _) H).
    eapply intersection_circle_range; [exact Hr| |exact E]. reflexivity.
Qed.

Lemma intersection_range (fuel : nat) (bx by' rl ang : f32) (lines : list Line) (circles : list Circle)
    (accuracy : f32) (o : option Intersection) :
  forallb (fun c => let '(_, _, r) := c in valid_f32 r) circles = true ->
  intersection d f32_cos f32_sin fuel bx by' rl ang lines circles accuracy = Some (Ok o) ->
  len_in_range rl o = true.
Proof.
  intros Hc H. unfold intersection in H.
  destruct (intersection_lines _ _ _ _ _ _ _ _) as [l|e] eqn:El; [|discriminate].
  destruct (intersection_circles _ _ _ _ _ _ _ _ _ _) as [[c|e]|] eqn:Ec; try discriminate.
  injection H as <-. apply choose_closest_range.
  - exact (intersection_lines_loop_range _ _ _ _ _ None l eq_refl El).
  - exact (intersection_circles_loop_range _ _ _ _ _ _ _ Hc None c eq_refl Ec).
Qed.

Lemma rays_loop_range (fuel rays_count : nat) (fov angle_offset bx by' rl : f32)
    (lines : list Line) (circles : list Circle) (accuracy : f32) (indices : list nat) :
  forallb (fun c => let '(_, _, r) := c in valid_f32 r) circles = true ->
  forall rs, rays_loop d f32_cos f32_sin fuel rays_count fov angle_offset bx by' rl lines circles
    accuracy indices = Some (Ok rs) ->
  forallb (fun ray => len_in_range rl (Ray.intersection ray)) rs = true.
Proof.
  intros Hc. induction indices as [|i rest IH]; intros rs H; cbn [rays_loop] in H.
  - injection H as <-. reflexivity.
  - destruct (intersection _ _ _ _ _ _ _ _ _ _ _) as [[h|e]|] eqn:E; try discriminate.
    destruct (rays_loop _ _ _ _ _ _ _ _ _ _ _ _ _ _) as [[rs'|e]|]; try discriminate.
    injection H as <-. cbn [forallb Ray.intersection].
    rewrite (intersection_range _ _ _ _ _ _ _ _ _ Hc E). apply IH. reflexivity.
Qed.

End LenRange.

(** Claim C8 (amended): no intersection returned by an entry point has
    a [len] below [0] or above [ray_len]: [intersection_line],
    [intersection_lines], [intersection_circles], [intersection] and
    every ray of [rays] (with well-formed circle radii), and
    [intersection_circle] when started from a [len] that is not
    negative, as [intersection_circles] starts it from [0].  The [len]
    of a segment hit may be NaN. *)
Theorem returned_len_in_range (d : bool) (f32_cos f32_sin : f32 -> f32) (fuel : nat)
    (ray_begin_x ray_begin_y ray_len : f32) (circles : list Circle)
    (Hc : forallb (fun c => let '(_, _, r) := c in valid_f32 r) circles = true) :
  (forall ray_angle x1 y1 x2 y2 o,
     intersection_line d f32_cos f32_sin ray_begin_x ray_begin_y ray_len ray_angle x1 y1 x2 y2 = Ok o ->
     len_in_range ray_len o = true) /\
  (forall ray_angle lines o,
     intersection_lines d f32_cos f32_sin ray_begin_x ray_begin_y ray_len ray_angle lines = Ok o ->
     len_in_range ray_len o = true) /\
  (forall ray_angle circle_x circle_y circle_radius accuracy len0 o,
     valid_f32 circle_radius = true -> nonneg_or_nan len0 ->
     intersection_circle d f32_cos f32_sin fuel ray_begin_x ray_begin_y ray_len ray_angle
       circle_x circle_y circle_radius accuracy len0 = Some (Ok o) ->
     len_in_range ray_len o = true) /\
  (forall ray_angle accuracy o,
     intersection_circles d f32_cos f32_sin fuel ray_begin_x ray_begin_y ray_len ray_angle
       circles accuracy = Some (Ok o) ->
     len_in_range ray_len o = true) /\
  (forall ray_angle lines accuracy o,
     intersection d f32_cos f32_sin fuel ray_begin_x ray_begin_y ray_len ray_angle
       lines circles accuracy = Some (Ok o) ->
     len_in_range ray_len o = true) /\
  (forall view_angle fov rays_count lines accuracy rs,
     rays d f32_cos f32_sin fuel view_angle fov rays_count ray_begin_x ray_begin_y ray_len
       lines circles accuracy = Some (Ok rs) ->
     forallb (fun ray => len_in_range ray_len (Ray.intersection ray)) rs = true).
Proof.
  split; [|split; [|split; [|split; [|split]]]].
  - intros. eapply intersection_line_range; eassumption.
  - intros ang lines o H. exact (intersection_lines_loop_range d f32_cos f32_sin _ _ _ _ lines None o eq_refl H).
  - intros. eapply intersection_circle_range; eassumption.
  - intros ang acc o H. exact (intersection_circles_loop_range d f32_cos f32_sin fuel _ _ _ _ _ circles Hc None o eq_refl H).
  - intros. eapply intersection_range; eassumption.
  - intros. eapply rays_loop_range; eassumption.
Qed.

Lemma returned_len_in_range_witness :
  forallb (fun c => let '(_, _, r) := c in valid_f32 r) [(lit 5 0, zero, one)] = true /\
  (forall ray_angle lines accuracy o,
     intersection true cos_ref sin_ref 10 zero zero (lit 10 0) ray_angle
       lines [(lit 5 0, zero, one)] accuracy = Some (Ok o) ->
     len_in_range (lit 10 0) o = true).
Proof.
  split; [vm_compute; reflexivity|].
  exact (proj1 (proj2 (proj2 (proj2 (proj2 (returned_len_in_range true cos_ref sin_ref 10 zero zero (lit 10 0)
    [(lit 5 0, zero, one)] ltac:(vm_compute; reflexivity))))))).
Defined.

(** [intersection_circle] called with [len = -1] returns an
    intersection with [len = -1]; and, on a platform whose default NaN
    is positive, the vertical segment of Scenario A gives an
    intersection whose [len] is NaN. *)
Lemma returned_len_outside_range :
  intersection_circle true cos_ref sin_ref 10 zero zero (lit 10 0) zero one zero one one (lit (-1) 0)
    = Some (Ok (Some (mkIntersection zero zero (lit (-1) 0)))) /\
  flt (lit (-1) 0) zero = true /\
  intersection_line false cos_ref sin_ref zero zero (lit 10 0) zero
    (lit 5 0) (lit (-5) 0) (lit 5 0) (lit 5 0)
    = Ok (Some (mkIntersection (NaN false) (NaN false) (NaN false))).
Proof. split; [|split]; vm_compute; reflexivity. Qed.

(** ** Further properties of the program *)

Lemma flt_num (a b : f32) : flt a b = true -> is_num a = true /\ is_num b = true.
Proof. destruct a as [[]|], b as [[]|]; cbn [flt fcmp SFcompare is_num]; try discriminate; auto. Qed.

Lemma lexlt_trans (a b c : Z * Z * Z) : lexlt a b -> lexlt b c -> lexlt a c.
Proof.
  destruct a as [[a1 a2] a3], b as [[b1 b2] b3], c as [[c1 c2] c3]; simpl; lia.
Qed.

Lemma lexlt_irrefl (a : Z * Z * Z) : lexlt a a -> False.
Proof. destruct a as [[a1 a2] a3]; simpl; lia. Qed.

Lemma lex_lt_iff (a b : Z * Z * Z) : lex a b = Lt <-> lexlt a b.
Proof.
  destruct (lex_cases a b) as [[E ->]|[[E L]|[E L]]]; rewrite E; split; intros H; auto; try discriminate.
  - exfalso. destruct b as [[b1 b2] b3]; simpl in H; lia.
  - exfalso. destruct a as [[a1 a2] a3], b as [[b1 b2] b3]; simpl in *; lia.
Qed.

Lemma flt_trans (a b c : f32) : flt a b = true -> flt b c = true -> flt a c = true.
Proof.
  intros H1 H2.
  destruct (flt_num a b H1) as [Na Nb], (flt_num b c H2) as [_ Nc].
  revert H1 H2. unfold flt. rewrite !fcmp_num by assumption.
  destruct (lex (fkey a) (fkey b)) eqn:E1; try discriminate.
  destruct (lex (fkey b) (fkey c)) eqn:E2; try discriminate.
  intros _ _. apply lex_lt_iff in E1, E2.
  assert (E : lex (fkey a) (fkey c) = Lt) by (apply lex_lt_iff; eapply lexlt_trans; eauto).
  rewrite E. reflexivity.
Qed.

Lemma flt_false_trans (a b c : f32) :
  is_num b = true -> flt a b = false -> flt b c = false -> flt a c = false.
Proof.
  intros Nb H1 H2.
  destruct (flt a c) eqn:H; [|reflexivity].
  destruct (flt_num a c H) as [Na Nc].
  revert H H1 H2. unfold flt. rewrite !fcmp_num by assumption.
  destruct (lex (fkey a) (fkey c)) eqn:E; try discriminate. intros _.
  apply lex_lt_iff in E.
  destruct (lex_cases (fkey a) (fkey b)) as [[E1 Q]|[[E1 L1]|[E1 L1]]]; rewrite E1;
    [rewrite Q in E| discriminate|]; intros _;
    (destruct (lex_cases (fkey b) (fkey c)) as [[E2 Q2]|[[E2 L2]|[E2 L2]]]; rewrite E2;
    [|discriminate|]; intros _).
  - rewrite Q2 in E. exfalso; exact (lexlt_irrefl _ E).
  - exfalso; exact (lexlt_irrefl _ (lexlt_trans _ _ _ L2 E)).
  - rewrite <- Q2 in E. exfalso; exact (lexlt_irrefl _ (lexlt_trans _ _ _ L1 E)).
  - exfalso; exact (lexlt_irrefl _ (lexlt_trans _ _ _ (lexlt_trans _ _ _ L2 L1) E)).
Qed.

Lemma fgt_irrefl (a : f32) : fgt a a = false.
Proof.
  unfold fgt. destruct (is_num a) eqn:N.
  - unfold flt. rewrite fcmp_num, lex_refl by assumption. reflexivity.
  - destruct a as [[]|]; cbn [is_num] in N; try discriminate; reflexivity.
Qed.

Lemma closest_nil : closest_among None [].
Proof. split; [intros i H; discriminate|intros h []]. Qed.

Lemma closest_step (c h' : option Intersection) (hits : list (option Intersection)) :
  closest_among c hits -> closest_among (choose_closest c h') (hits ++ [h']).
Proof.
  intros [H1 H2].
  destruct c as [i|], h' as [j|]; cbn [choose_closest].
  - destruct (fgt (len i) (len j)) eqn:G.
    + split.
      * intros k [= <-]. apply in_or_app. right. left. reflexivity.
      * intros h Hh. exists j. split; [reflexivity|].
        apply in_app_or in Hh as [Hh|[[= <-]|[]]]; [|apply fgt_irrefl].
        destruct (H2 h Hh) as (i' & [= <-] & Hi).
        unfold fgt in *. destruct (flt (len h) (len j)) eqn:F; [|reflexivity].
        rewrite (flt_trans _ _ _ F G) in Hi. discriminate.
    + split.
      * intros k Hk. apply in_or_app. left. apply H1, Hk.
      * intros h Hh. apply in_app_or in Hh as [Hh|[[= <-]|[]]]; [apply H2, Hh|].
        exists i. split; [reflexivity|exact G].
  - split.
    + intros k Hk. apply in_or_app. left. apply H1, Hk.
    + intros h Hh. apply in_app_or in Hh as [Hh|[E|[]]]; [apply H2, Hh|discriminate].
  - split.
    + intros k [= <-]. apply in_or_app. right. left. reflexivity.
    + intros h Hh. apply in_app_or in Hh as [Hh|[[= <-]|[]]].
      * destruct (H2 h Hh) as (i & E & _). discriminate.
      * exists j. split; [reflexivity|apply fgt_irrefl].
  - split.
    + intros k E. discriminate.
    + intros h Hh. apply in_app_or in Hh as [Hh|[E|[]]]; [apply H2, Hh|discriminate].
Qed.

Lemma closest_fold (l : list (option Intersection)) : forall c hits,
  closest_among c hits -> closest_among (fold_left choose_closest l c) (hits ++ l).
Proof.
  induction l as [|h l IH]; intros c hits H; simpl.
  - rewrite app_nil_r. exact H.
  - replace (hits ++ h :: l) with ((hits ++ [h]) ++ l) by (rewrite <- app_assoc; reflexivity).
    apply IH, closest_step, H.
Qed.

Lemma closest_fold_none (l : list (option Intersection)) :
  closest_among (fold_left choose_closest l None) l.
Proof. exact (closest_fold l None [] closest_nil). Qed.

Lemma closest_merge (a b : option Intersection) (la lb : list (option Intersection)) :
  closest_among a la -> closest_among b lb ->
  (forall h, In (Some h) lb -> is_num (len h) = true) ->
  closest_among (choose_closest a b) (la ++ lb).
Proof.
  intros Ha Hb N.
  destruct (closest_step a b la Ha) as [S1 S2].
  split.
  - intros i Hi. apply S1 in Hi. apply in_app_or in Hi as [Hi|[E|[]]].
    + apply in_or_app. left. exact Hi.
    + apply in_or_app. right. apply (proj1 Hb). exact E.
  - intros h Hh. apply in_app_or in Hh as [Hh|Hh].
    + apply S2, in_or_app. left. exact Hh.
    + destruct (proj2 Hb h Hh) as (k & Ek & Gk).
      destruct (S2 k) as (r & Er & Gr).
      { apply in_or_app. right. left. rewrite Ek. reflexivity. }
      exists r. split; [exact Er|].
      unfold fgt in *. apply (flt_false_trans _ (len k)); [|exact Gk|exact Gr].
      apply N, (proj1 Hb), Ek.
Qed.

Section CircleFacts.

Variable d : bool.
Variables f32_cos f32_sin : f32 -> f32.

Lemma fmul_nan_r' (a b : f32) : is_nan b = true -> is_nan (fmul d a b) = true.
Proof. destruct a as [|], b as [|]; cbn; congruence. Qed.

Lemma fadd_nan_r' (a b : f32) : is_nan b = true -> is_nan (fadd d a b) = true.
Proof. destruct a as [|], b as [|]; cbn; congruence. Qed.

Lemma fadd_nan_l' (a b : f32) : is_nan a = true -> is_nan (fadd d a b) = true.
Proof. destruct a as [|], b as [|]; cbn; congruence. Qed.

Lemma fle_nan_l (a b : f32) : is_nan a = true -> fle a b = false.
Proof. destruct a; cbn; congruence. Qed.

Lemma len_to_circle_nan (bx by' cx cy r : f32) :
  is_nan bx = true -> is_nan (len_to_circle_at d bx by' cx cy r) = true.
Proof.
  destruct bx as [|s]; [discriminate|]. intros _.
  unfold len_to_circle_at, vector_len. cbn [fsub binop powi2 fmul fadd fsqrt].
  destruct (flt (NaN s) r) eqn:F; [unfold flt in F; discriminate|].
  reflexivity.
Qed.

Lemma fadd_nonneg_num (a b : f32) :
  nonneg_or_nan a -> is_num a = true -> nonneg_or_nan b -> is_num b = true ->
  is_num (fadd d a b) = true.
Proof.
  destruct a as [[s|s| |s m e]|s]; cbn [nonneg_or_nan nonneg_sf is_num]; try contradiction; try discriminate;
  destruct b as [[s'|s'| |s' m' e']|s']; cbn [nonneg_or_nan nonneg_sf is_num]; try contradiction; try discriminate;
  intros Ha _ Hb _; subst; try reflexivity.
  cbn [fadd binop SFadd cond_Zopp Z.add]. apply of_sf_num, binary_normalize_not_nan.
Qed.

Lemma intersection_circle_len_num (fuel : nat) : forall bx by' rl ang cx cy r acc len0 i,
  valid_f32 r = true ->
  (is_nan bx = true \/ (nonneg_or_nan len0 /\ is_num len0 = true)) ->
  intersection_circle d f32_cos f32_sin fuel bx by' rl ang cx cy r acc len0 = Some (Ok (Some i)) ->
  is_num (len i) = true.
Proof.
  induction fuel as [|fuel IH]; intros bx by' rl ang cx cy r acc len0 i Hr Hinv H;
    cbn [intersection_circle] in H; [discriminate|].
  destruct (fgt len0 rl); [discriminate|].
  pose proof (len_to_circle_shape d bx by' cx cy r Hr) as Ls.
  destruct (fle (len_to_circle_at d bx by' cx cy r) acc) eqn:F.
  - injection H as <-. cbn [len].
    destruct Hinv as [Hn|[_ Hn]]; [|exact Hn].
    rewrite fle_nan_l in F by (apply len_to_circle_nan; exact Hn). discriminate.
  - eapply IH; [exact Hr| |exact H].
    destruct (len_to_circle_at d bx by' cx cy r) as [[s|s| |s m e]|s] eqn:L;
      cbn [nonneg_or_nan nonneg_sf] in Ls; try contradiction.
    4: { left. apply fadd_nan_l', fmul_nan_r'. reflexivity. }
    all: destruct Hinv as [Hn|[Hl Hn]]; [left; apply fadd_nan_r', Hn|right];
      split; [apply fadd_shape; [exact Hl|exact Ls]|apply fadd_nonneg_num; auto].
Qed.

Lemma fle_flt_trans (a b c : f32) : fle a b = true -> flt b c = true -> flt a c = true.
Proof.
  intros H1 H2.
  destruct (fcmp a b) as [[]|] eqn:C; unfold fle in H1; rewrite C in H1; try discriminate.
  - destruct (flt_num b c H2) as [Nb Nc].
    assert (Na : is_num a = true) by (destruct a as [[]|]; try reflexivity; destruct b; discriminate).
    rewrite fcmp_num in C by assumption. injection C as C.
    destruct (lex_cases (fkey a) (fkey b)) as [[_ E]|[[E _]|[E _]]]; rewrite E in C; try discriminate.
    revert H2. unfold flt. rewrite !fcmp_num by assumption. rewrite E. auto.
  - apply (flt_trans a b c); [unfold flt; rewrite C; reflexivity|exact H2].
Qed.

Lemma nonneg_fle_neg (a b : f32) : nonneg_or_nan a -> flt b zero = true -> fle a b = false.
Proof.
  intros Ha Hb. destruct (fle a b) eqn:F; [|reflexivity].
  pose proof (fle_flt_trans _ _ _ F Hb) as C.
  rewrite (nonneg_not_neg a Ha) in C. discriminate.
Qed.

End CircleFacts.

Lemma opt_all_in {A : Type} (l : list (option A)) : forall rs a,
  opt_all l = Some rs -> In a rs -> In (Some a) l.
Proof.
  induction l as [|[b|] l IH]; intros rs a H Hin; cbn [opt_all] in H.
  - injection H as <-. destruct Hin.
  - destruct (opt_all l) as [rs'|] eqn:E; [|discriminate]. injection H as <-.
    destruct Hin as [<-|Hin]; [left; reflexivity|right; eapply IH; eauto].
  - discriminate.
Qed.

Section HitFacts.

Variable d : bool.
Variables f32_cos f32_sin : f32 -> f32.

Lemma circle_hits_num (fuel : nat) (bx by' rl ang acc : f32) (circles : list Circle) rs :
  forallb (fun c => let '(_, _, r) := c in valid_f32 r) circles = true ->
  opt_all (map (circle_hit d f32_cos f32_sin fuel bx by' rl ang acc) circles) = Some rs ->
  forall h, In (Some h) rs -> is_num (len h) = true.
Proof.
  intros Hc Ho h Hh.
  apply (opt_all_in _ _ _ Ho), in_map_iff in Hh as ([[cx cy] r] & E & Hin).
  pose proof (proj1 (forallb_forall _ _) Hc _ Hin) as Hr. cbn beta iota in Hr.
  unfold circle_hit in E.
  destruct (intersection_circle _ _ _ _ _ _ _ _ _ _ _ _ _) as [[o|e]|] eqn:C; try discriminate.
  injection E as ->.
  eapply intersection_circle_len_num; [exact Hr| |exact C].
  right. split; reflexivity.
Qed.

Lemma intersection_line_hit (bx by' rl ang x1 y1 x2 y2 : f32) (i : Intersection) :
  intersection_line d f32_cos f32_sin bx by' rl ang x1 y1 x2 y2 = Ok (Some i) ->
  len i = vector_len d bx by' (x i) (y i) /\
  fgt (fmin x1 x2) (x i) = false /\ fgt (x i) (fmax x1 x2) = false /\
  fgt (fmin y1 y2) (y i) = false /\ fgt (y i) (fmax y1 y2) = false /\
  fgt (len i) rl = false.
Proof.
  unfold intersection_line. cbv zeta.
  repeat match goal with |- context [if ?b then _ else _] => let E := fresh "E" in destruct b eqn:E end;
    intros H; try discriminate.
  injection H as <-. cbn [x y len].
  repeat match goal with H : (_ || _) = false |- _ => apply orb_false_iff in H as [? ?] end.
  repeat split; assumption.
Qed.


End HitFacts.

(** [vector_len] returns a NaN or a number whose sign bit is clear
    ([+0], a positive number or [+inf]); never a negative number or [-0]. *)
Theorem vector_len_sign_clear (d : bool) (x1 y1 x2 y2 : f32) :
  is_nan (vector_len d x1 y1 x2 y2) = true \/
  (is_num (vector_len d x1 y1 x2 y2) = true /\ is_sign_negative (vector_len d x1 y1 x2 y2) = false).
Proof.
  pose proof (vector_len_nonneg d x1 y1 x2 y2) as V.
  destruct (vector_len d x1 y1 x2 y2) as [[s|s| |s m e]|s]; cbn [nonneg_or_nan nonneg_sf] in V;
    try contradiction; [right|right|right|left]; subst; auto.
Qed.

(** [intersection_lines] always returns [Ok], and its result is the
    closest segment hit: it is one of the segments' hits, it is [None]
    only when no segment is hit, and its [len] is not greater than the
    [len] of any segment hit. *)
Theorem intersection_lines_closest (d : bool) (f32_cos f32_sin : f32 -> f32)
    (ray_begin_x ray_begin_y ray_len ray_angle : f32) (lines : list Line) :
  exists o, intersection_lines d f32_cos f32_sin ray_begin_x ray_begin_y ray_len ray_angle lines = Ok o /\
    closest_among o (map (line_hit d f32_cos f32_sin ray_begin_x ray_begin_y ray_len ray_angle) lines).
Proof.
  eexists. split; [apply intersection_lines_loop_eq|apply closest_fold_none].
Qed.

(** When [intersection_circles] returns, with well-formed radii, its
    result is the closest circle hit (one of the circles' hits, [None]
    only when none is hit, with a [len] not greater than any hit's), and
    every circle hit has a [len] that is a number, never NaN. *)
Theorem intersection_circles_closest (d : bool) (f32_cos f32_sin : f32 -> f32) (fuel : nat)
    (ray_begin_x ray_begin_y ray_len ray_angle : f32) (circles : list Circle) (accuracy : f32)
    (o : option Intersection)
    (Hc : forallb (fun c => let '(_, _, r) := c in valid_f32 r) circles = true)
    (H : intersection_circles d f32_cos f32_sin fuel ray_begin_x ray_begin_y ray_len ray_angle
           circles accuracy = Some (Ok o)) :
  exists rs,
    opt_all (map (circle_hit d f32_cos f32_sin fuel ray_begin_x ray_begin_y ray_len ray_angle accuracy)
               circles) = Some rs /\
    closest_among o rs /\
    (forall h, In (Some h) rs -> is_num (len h) = true).
Proof.
  unfold intersection_circles in H. rewrite intersection_circles_loop_eq in H.
  destruct (opt_all _) as [rs|] eqn:E; [|discriminate]. injection H as <-.
  exists rs. split; [reflexivity|split; [apply closest_fold_none|]].
  eapply circle_hits_num; eauto.
Qed.

(** When [intersection] returns, with well-formed radii, its result is
    the closest of all segment and circle hits: one of them, [None] only
    when there is none, and with a [len] not greater than any of theirs. *)
Theorem intersection_closest (d : bool) (f32_cos f32_sin : f32 -> f32) (fuel : nat)
    (ray_begin_x ray_begin_y ray_len ray_angle : f32) (lines : list Line) (circles : list Circle)
    (accuracy : f32) (o : option Intersection)
    (Hc : forallb (fun c => let '(_, _, r) := c in valid_f32 r) circles = true)
    (H : intersection d f32_cos f32_sin fuel ray_begin_x ray_begin_y ray_len ray_angle
           lines circles accuracy = Some (Ok o)) :
  exists rs,
    opt_all (map (circle_hit d f32_cos f32_sin fuel ray_begin_x ray_begin_y ray_len ray_angle accuracy)
               circles) = Some rs /\
    closest_among o (map (line_hit d f32_cos f32_sin ray_begin_x ray_begin_y ray_len ray_angle) lines ++ rs).
Proof.
  rewrite intersection_eq in H.
  destruct (opt_all _) as [rs|] eqn:E; [|discriminate]. injection H as <-.
  exists rs. split; [reflexivity|].
  apply closest_merge; [apply closest_fold_none|apply closest_fold_none|].
  eapply circle_hits_num; eauto.
Qed.



(** With a negative [accuracy] and a well-formed radius,
    [intersection_circle] never reports a hit, and [intersection_circles]
    returns [None] whenever it returns. *)
Theorem negative_accuracy_no_circle_hit (d : bool) (f32_cos f32_sin : f32 -> f32) (fuel : nat)
    (ray_begin_x ray_begin_y ray_len ray_angle accuracy : f32)
    (Hacc : flt accuracy zero = true) :
  (forall circle_x circle_y circle_radius len0 i,
     valid_f32 circle_radius = true ->
     intersection_circle d f32_cos f32_sin fuel ray_begin_x ray_begin_y ray_len ray_angle
       circle_x circle_y circle_radius accuracy len0 <> Some (Ok (Some i))) /\
  (forall circles o,
     forallb (fun c => let '(_, _, r) := c in valid_f32 r) circles = true ->
     intersection_circles d f32_cos f32_sin fuel ray_begin_x ray_begin_y ray_len ray_angle
       circles accuracy = Some (Ok o) -> o = None).
Proof.
  assert (C : forall bx by' cx cy r len0 i, valid_f32 r = true ->
     intersection_circle d f32_cos f32_sin fuel bx by' ray_len ray_angle cx cy r accuracy len0
       <> Some (Ok (Some i))).
  { clear ray_begin_x ray_begin_y. induction fuel as [|fuel IH]; intros bx by' cx cy r len0 i Hr H;
      cbn [intersection_circle] in H; [discriminate|].
    destruct (fgt len0 ray_len); [discriminate|].
    rewrite (nonneg_fle_neg _ accuracy (len_to_circle_shape d bx by' cx cy r Hr) Hacc) in H.
    exact (IH _ _ _ _ _ _ _ Hr H). }
  split; [intros; apply C; assumption|].
  intros circles o Hc H. unfold intersection_circles in H.
  assert (G : forall cs acc, acc = None ->
    forallb (fun c => let '(_, _, r) := c in valid_f32 r) cs = true ->
    intersection_circles_loop d f32_cos f32_sin fuel ray_begin_x ray_begin_y ray_len ray_angle
      accuracy acc cs = Some (Ok o) -> o = None).
  { induction cs as [|[[cx cy] r] cs IHc]; intros acc Ea Hcs Hl; cbn [intersection_circles_loop] in Hl.
    - injection Hl as <-. exact Ea.
    - cbn [forallb] in Hcs. apply andb_prop in Hcs as [Hr Hcs].
      destruct (intersection_circle _ _ _ _ _ _ _ _ _ _ _ _ _) as [[[h|]|e]|] eqn:E; try discriminate.
      + exfalso. exact (C _ _ _ _ _ _ _ Hr E).
      + apply (IHc _ (f_equal (fun a => choose_closest a None) Ea) Hcs). subst acc. exact Hl. }
  exact (G circles None eq_refl Hc H).
Qed.

(** With a negative [ray_len], [intersection_circles] returns [None]
    at once, and a hit of [intersection_line] can only have a NaN [len]. *)
Theorem negative_ray_len_no_hit (d : bool) (f32_cos f32_sin : f32 -> f32) (fuel : nat)
    (ray_begin_x ray_begin_y ray_len ray_angle : f32)
    (Hrl : flt ray_len zero = true) (Hf : (0 < fuel)%nat) :
  (forall circles accuracy,
     intersection_circles d f32_cos f32_sin fuel ray_begin_x ray_begin_y ray_len ray_angle
       circles accuracy = Some (Ok None)) /\
  (forall line_x1 line_y1 line_x2 line_y2 i,
     intersection_line d f32_cos f32_sin ray_begin_x ray_begin_y ray_len ray_angle
       line_x1 line_y1 line_x2 line_y2 = Ok (Some i) -> is_nan (len i) = true).
Proof.
  split.
  - intros circles accuracy. unfold intersection_circles.
    destruct fuel as [|fuel]; [lia|].
    assert (G : forall cs acc, intersection_circles_loop d f32_cos f32_sin (S fuel) ray_begin_x
      ray_begin_y ray_len ray_angle accuracy acc cs = Some (Ok acc)).
    { induction cs as [|[[cx cy] r] cs IH]; intros acc; cbn [intersection_circles_loop]; [reflexivity|].
      cbn [intersection_circle]. unfold fgt. rewrite Hrl.
      replace (choose_closest acc None) with acc by (destruct acc; reflexivity). apply IH. }
    apply G.
  - intros x1 y1 x2 y2 i H.
    destruct (intersection_line_hit d f32_cos f32_sin _ _ _ _ _ _ _ _ i H) as (E & _ & _ & _ & _ & G).
    destruct (is_nan (len i)) eqn:N; [reflexivity|exfalso].
    pose proof (vector_len_nonneg d ray_begin_x ray_begin_y (x i) (y i)) as V. rewrite <- E in V.
    assert (Nm : is_num (len i) = true) by (destruct (len i) as [[]|]; cbn in *; try discriminate; auto).
    rewrite (flt_false_trans ray_len (len i) zero Nm G (nonneg_not_neg _ V)) in Hrl. discriminate.
Qed.

Lemma binary_round_aux_opp (sx : bool) (m e : Z) (l : location) :
  binary_round_aux prec emax (negb sx) m e l = SFopp (binary_round_aux prec emax sx m e l).
Proof.
  unfold binary_round_aux.
  destruct (shr_fexp _ _ _ _ _) as [r1 e1].
  destruct (shr_fexp _ _ _ _ _) as [r2 e2].
  destruct (shr_m r2); try destruct (_ <=? _); reflexivity.
Qed.

Lemma binary_normalize_opp (m e : Z) :
  m <> 0 -> binary_normalize prec emax (- m) e false = SFopp (binary_normalize prec emax m e false).
Proof.
  intros Hm. destruct m as [|p|p]; [congruence| |]; cbn [Z.opp binary_normalize]; unfold binary_round;
    destruct (shl_align _ _ _) as [mz ez].
  - apply (binary_round_aux_opp false).
  - rewrite <- (binary_round_aux_opp true). reflexivity.
Qed.

Lemma cond_Zopp_negb (s : bool) (m : Z) : cond_Zopp (negb s) m = - cond_Zopp s m.
Proof. destruct s; cbn; lia. Qed.

Lemma SFsub_swap (u v : spec_float) :
  SFsub prec emax v u = SFopp (SFsub prec emax u v) \/
  (exists s1 s2, SFsub prec emax v u = S754_zero s1 /\ SFsub prec emax u v = S754_zero s2).
Proof.
  destruct u as [su|su| |su mu eu], v as [sv|sv| |sv mv ev];
    lazymatch goal with
    | |- context [SFsub _ _ (S754_finite _ _ _) (S754_finite _ _ _)] => idtac
    | |- context [SFsub _ _ (S754_zero _) (S754_zero _)] =>
        right; destruct su, sv; do 2 eexists; split; reflexivity
    | |- _ => left; try destruct su; try destruct sv; reflexivity
    end.
  cbn [SFsub SFopp SFadd]. rewrite (Z.min_comm ev eu).
  change (IntDef.Z.min eu ev) with (Z.min eu ev).
  set (mu' := cond_Zopp su (Zpos (fst (shl_align mu eu (Z.min eu ev))))).
  set (mv' := cond_Zopp sv (Zpos (fst (shl_align mv ev (Z.min eu ev))))).
  replace (mv' - mu') with (- (mu' - mv')) by lia.
  destruct (Z.eq_dec (mu' - mv') 0) as [E|E].
  - right. rewrite E. do 2 eexists; split; reflexivity.
  - left. apply binary_normalize_opp, E.
Qed.

Section Symmetry.

Variable d : bool.

Lemma SFmul_opp_opp (w : spec_float) : SFmul prec emax (SFopp w) (SFopp w) = SFmul prec emax w w.
Proof.
  destruct w as [s|s| |s m e]; cbn [SFopp SFmul]; rewrite ?xorb_nilpotent; reflexivity.
Qed.

Lemma same_or_nan_refl (a : f32) : same_or_nan a a.
Proof. destruct a; cbn; auto. Qed.

Lemma square_of (w : spec_float) :
  powi2 d (of_sf d w) = match w with S754_nan => NaN d | _ => of_sf d (SFmul prec emax w w) end.
Proof. destruct w; reflexivity. Qed.

Lemma square_opp (w : spec_float) :
  same_or_nan (match w with S754_nan => NaN d | _ => of_sf d (SFmul prec emax w w) end)
              (match SFopp w with S754_nan => NaN d | _ => of_sf d (SFmul prec emax (SFopp w) (SFopp w)) end).
Proof.
  rewrite SFmul_opp_opp. destruct w; cbn [SFopp]; first [exact I | apply same_or_nan_refl].
Qed.

Lemma square_zeros (s1 s2 : bool) :
  same_or_nan (powi2 d (of_sf d (S754_zero s1))) (powi2 d (of_sf d (S754_zero s2))).
Proof. destruct s1, s2; cbn; reflexivity. Qed.

Lemma powi2_sub_swap (a b : f32) :
  same_or_nan (powi2 d (fsub d a b)) (powi2 d (fsub d b a)).
Proof.
  destruct a as [u|s], b as [v|s']; try exact I.
  change (fsub d (Num ?p) (Num ?q)) with (of_sf d (SFsub prec emax p q)).
  destruct (SFsub_swap u v) as [E|(s1 & s2 & E1 & E2)].
  - rewrite E, !square_of. apply square_opp.
  - rewrite E1, E2. apply square_zeros.
Qed.

Lemma fadd_same (a a' b b' : f32) :
  same_or_nan a a' -> same_or_nan b b' -> same_or_nan (fadd d a b) (fadd d a' b').
Proof.
  destruct a, a', b, b'; cbn [same_or_nan]; try contradiction; intros; subst;
    cbn [fadd binop]; first [exact I | apply same_or_nan_refl].
Qed.

Lemma fsqrt_same (a a' : f32) : same_or_nan a a' -> same_or_nan (fsqrt d a) (fsqrt d a').
Proof.
  destruct a, a'; cbn [same_or_nan]; try contradiction; intros; subst;
    cbn [fsqrt]; first [exact I | apply same_or_nan_refl].
Qed.

End Symmetry.

Lemma fsub_self_zero (d : bool) (a : f32) : is_finite a = true -> fsub d a a = zero.
Proof.
  destruct a as [[s|s| |s m e]|s]; cbn [is_finite]; try discriminate; intros _.
  - destruct s; reflexivity.
  - change (fsub d (Num ?p) (Num ?q)) with (of_sf d (SFsub prec emax p q)).
    rewrite SFsub_finite_self. reflexivity.
Qed.

(** [vector_len] is symmetric in its two points: swapping them gives the
    same number, or NaN in both cases (possibly with another sign). *)
Theorem vector_len_symmetric (d : bool) (x1 y1 x2 y2 : f32) :
  same_or_nan (vector_len d x1 y1 x2 y2) (vector_len d x2 y2 x1 y1).
Proof.
  unfold vector_len. apply fsqrt_same, fadd_same; apply powi2_sub_swap.
Qed.

(** The distance from a finite point to itself is [+0]. *)
Theorem vector_len_same_point (d : bool) (x0 y0 : f32)
    (Hx : is_finite x0 = true) (Hy : is_finite y0 = true) :
  vector_len d x0 y0 x0 y0 = zero.
Proof. unfold vector_len. rewrite !fsub_self_zero by assumption. reflexivity. Qed.



Lemma vector_len_same_point_witness :
  is_finite one = true /\ is_finite two = true /\ vector_len true one two one two = zero.
Proof.
  split; [reflexivity|split; [reflexivity|]].
  apply (vector_len_same_point true one two); reflexivity.
Defined.

(** Two circles on the ray of angle [0] from the origin, both hit
    ([len] 4 and 2); the second, nearer hit is chosen. *)
Lemma intersection_circles_closest_witness :
  forallb (fun c => let '(_, _, r) := c in valid_f32 r)
    [(lit 5 0, zero, one); (lit 3 0, zero, one)] = true /\
  map (circle_hit true cos_ref sin_ref 10 zero zero (lit 10 0) zero one)
    [(lit 5 0, zero, one); (lit 3 0, zero, one)]
    = [Some (Some (mkIntersection (lit 4 0) zero (lit 4 0)));
       Some (Some (mkIntersection two zero two))] /\
  intersection_circles true cos_ref sin_ref 10 zero zero (lit 10 0) zero
    [(lit 5 0, zero, one); (lit 3 0, zero, one)] one
    = Some (Ok (Some (mkIntersection two zero two))) /\
  exists rs,
    opt_all (map (circle_hit true cos_ref sin_ref 10 zero zero (lit 10 0) zero one)
               [(lit 5 0, zero, one); (lit 3 0, zero, one)]) = Some rs /\
    closest_among (Some (mkIntersection two zero two)) rs /\
    (forall h, In (Some h) rs -> is_num (len h) = true).
Proof.
  assert (Hc : forallb (fun c => let '(_, _, r) := c in valid_f32 r)
                 [(lit 5 0, zero, one); (lit 3 0, zero, one)] = true)
    by (vm_compute; reflexivity).
  assert (H : intersection_circles true cos_ref sin_ref 10 zero zero (lit 10 0) zero
                [(lit 5 0, zero, one); (lit 3 0, zero, one)] one
              = Some (Ok (Some (mkIntersection two zero two))))
    by (vm_compute; reflexivity).
  split; [exact Hc|split; [vm_compute; reflexivity|split; [exact H|]]].
  exact (intersection_circles_closest true cos_ref sin_ref 10 zero zero (lit 10 0) zero _ one _ Hc H).
Defined.

(** The ray of angle [2] from the origin, of length 10, crosses two
    segments (hits at [len] about 3.77 and 7.54) and two circles (hits
    at [len] about 5.04 and 1.74); the nearer circle hit is chosen. *)
Lemma intersection_closest_witness :
  forallb (fun c => let '(_, _, r) := c in valid_f32 r)
    [(lit (-5) (-1), lit 11 (-1), one); (lit (-1) 0, two, lit 1 (-1))] = true /\
  map (line_hit true cos_ref sin_ref zero zero (lit 10 0) two)
    [(lit (-5) 0, zero, zero, lit 5 0); (lit (-5) 0, lit 5 0, zero, lit 10 0)]
    = [Some (mkIntersection (lit (-13168764) (-23)) (lit 14387137 (-22)) (lit 15822256 (-22)));
       Some (mkIntersection (lit (-13168764) (-22)) (lit 14387137 (-21)) (lit 15822256 (-21)))] /\
  map (circle_hit true cos_ref sin_ref 10 zero zero (lit 10 0) two one)
    [(lit (-5) (-1), lit 11 (-1), one); (lit (-1) 0, two, lit 1 (-1))]
    = [Some (Some (mkIntersection (lit (-8799708) (-22)) (lit 9613856 (-21)) (lit 10572840 (-21))));
       Some (Some (mkIntersection (lit (-12120854) (-24)) (lit 13242275 (-23)) (lit 14563194 (-23))))] /\
  intersection true cos_ref sin_ref 10 zero zero (lit 10 0) two
    [(lit (-5) 0, zero, zero, lit 5 0); (lit (-5) 0, lit 5 0, zero, lit 10 0)]
    [(lit (-5) (-1), lit 11 (-1), one); (lit (-1) 0, two, lit 1 (-1))] one
    = Some (Ok (Some (mkIntersection (lit (-12120854) (-24)) (lit 13242275 (-23)) (lit 14563194 (-23))))) /\
  exists rs,
    opt_all (map (circle_hit true cos_ref sin_ref 10 zero zero (lit 10 0) two one)
               [(lit (-5) (-1), lit 11 (-1), one); (lit (-1) 0, two, lit 1 (-1))]) = Some rs /\
    closest_among
      (Some (mkIntersection (lit (-12120854) (-24)) (lit 13242275 (-23)) (lit 14563194 (-23))))
      (map (line_hit true cos_ref sin_ref zero zero (lit 10 0) two)
         [(lit (-5) 0, zero, zero, lit 5 0); (lit (-5) 0, lit 5 0, zero, lit 10 0)] ++ rs).
Proof.
  assert (Hc : forallb (fun c => let '(_, _, r) := c in valid_f32 r)
                 [(lit (-5) (-1), lit 11 (-1), one); (lit (-1) 0, two, lit 1 (-1))] = true)
    by (vm_compute; reflexivity).
  assert (H : intersection true cos_ref sin_ref 10 zero zero (lit 10 0) two
                [(lit (-5) 0, zero, zero, lit 5 0); (lit (-5) 0, lit 5 0, zero, lit 10 0)]
                [(lit (-5) (-1), lit 11 (-1), one); (lit (-1) 0, two, lit 1 (-1))] one
              = Some (Ok (Some (mkIntersection (lit (-12120854) (-24)) (lit 13242275 (-23))
                                  (lit 14563194 (-23))))))
    by (vm_compute; reflexivity).
  split; [exact Hc|split; [vm_compute; reflexivity|split; [vm_compute; reflexivity|split; [exact H|]]]].
  exact (intersection_closest true cos_ref sin_ref 10 zero zero (lit 10 0) two _ _ one _ Hc H).
Defined.



Lemma negative_accuracy_no_circle_hit_witness :
  flt (lit (-1) 0) zero = true /\
  forall circle_x circle_y circle_radius len0 i,
    valid_f32 circle_radius = true ->
    intersection_circle true cos_ref sin_ref 10 zero zero (lit 10 0) zero
      circle_x circle_y circle_radius (lit (-1) 0) len0 <> Some (Ok (Some i)).
Proof.
  assert (Ha : flt (lit (-1) 0) zero = true) by (vm_compute; reflexivity).
  split; [exact Ha|].
  exact (proj1 (negative_accuracy_no_circle_hit true cos_ref sin_ref 10 zero zero (lit 10 0) zero _ Ha)).
Defined.

Lemma negative_ray_len_no_hit_witness :
  flt (lit (-1) 0) zero = true /\ (0 < 1)%nat /\
  forall circles accuracy,
    intersection_circles true cos_ref sin_ref 1 zero zero (lit (-1) 0) zero circles accuracy
      = Some (Ok None).
Proof.
  assert (Hr : flt (lit (-1) 0) zero = true) by (vm_compute; reflexivity).
  split; [exact Hr|split; [lia|]].
  exact (proj1 (negative_ray_len_no_hit true cos_ref sin_ref 1 zero zero (lit (-1) 0) zero Hr
    ltac:(lia))).
Defined.

